(** * A recursive task scheduler: the task store, candidate selection and the
      scheduling step of [scheduler.ts], embedded and verified.

    The embedding follows the TypeScript source function by function.  The
    three kinds of thing the program touches are modelled explicitly:

    - the file system under the working directory, a finite map from path
      strings to nodes (a file with its text, or a directory);
    - the module-level counter [taskNum] and the caller's [taskStack] array,
      which [processTask] mutates;
    - the external reasoning services (classifier, generator, evaluator),
      oracles whose answer may differ at every call and whose requests are
      recorded in a trace.

    A computation is a function from the world to an outcome (a value or a
    thrown exception) and the world it leaves behind. *)

From Stdlib Require Import ZArith String Ascii List Sorting.Sorted.
From Stdlib Require Import DecimalString DecimalFacts DecimalPos DecimalZ.
From stdpp Require Import gmap strings list sorting.

Local Open Scope Z_scope.

(** ** Data model (scheduler.ts, lines 15-26) *)

(** [z.enum(["low", "medium", "high"])] *)
Inductive Priority := low | medium | high.

(** An element of [work_ledger]. *)
Record WorkEntry := { work_summary : string }.

(** [TaskSchema].  Identifiers are JavaScript numbers; the program only ever
    stores integers in them, so they are integers here. *)
Record Task := {
  id : Z;
  parentId : Z;
  description : string;
  priority : Priority;
  work_ledger : list WorkEntry;
  requirements_for_success : string;
  completed : bool;
}.

#[export] Instance Priority_eq_dec : EqDecision Priority.
Proof. solve_decision. Defined.
#[export] Instance WorkEntry_eq_dec : EqDecision WorkEntry.
Proof. solve_decision. Defined.
#[export] Instance Task_eq_dec : EqDecision Task.
Proof. solve_decision. Defined.

(** ** JavaScript built-ins used by the source *)

Module JS.

(** [s.includes(c)] for a one-character needle. *)
Fixpoint includes (s : string) (c : ascii) : bool :=
  match s with
  | EmptyString => false
  | String a s' => if Ascii.eqb a c then true else includes s' c
  end.

(** [s.split(sep)] for a one-character separator: never the empty array. *)
Fixpoint split (s : string) (sep : ascii) : list string :=
  match s with
  | EmptyString => [EmptyString]
  | String a s' =>
      if Ascii.eqb a sep then EmptyString :: split s' sep
      else match split s' sep with
           | [] => [String a EmptyString]
           | hd :: tl => String a hd :: tl
           end
  end.

(** [xs.join(sep)] *)
Fixpoint join (xs : list string) (sep : string) : string :=
  match xs with
  | [] => EmptyString
  | [x] => x
  | x :: xs' => x +:+ sep +:+ join xs' sep
  end.

(** [xs.slice(0, -1)]: all but the last element. *)
Definition slice_init {A} (xs : list A) : list A := removelast xs.

(** Truthiness of a value of type [string | undefined]. *)
Definition truthy (v : option string) : bool :=
  match v with
  | None => false
  | Some EmptyString => false
  | Some _ => true
  end.

(** [xs.find(p)]: the first element satisfying [p].  The element is an
    object of the array, so a later mutation of it is a mutation of the
    array at the index where it was found. *)
Fixpoint findIndex {A} (p : A -> bool) (xs : list A) : option nat :=
  match xs with
  | [] => None
  | x :: xs' => if p x then Some O else S <$> findIndex p xs'
  end.

(** [xs.sort(cmp)].  The language guarantees a stable sort: elements are
    ordered by [cmp], and elements that compare equal keep their order.
    Insertion from the right realises exactly that. *)
Fixpoint insert {A} (cmp : A -> A -> Z) (x : A) (xs : list A) : list A :=
  match xs with
  | [] => [x]
  | y :: xs' => if (cmp x y <=? 0)%Z then x :: y :: xs' else y :: insert cmp x xs'
  end.

Definition sort {A} (cmp : A -> A -> Z) (xs : list A) : list A :=
  foldr (insert cmp) [] xs.

(** [xs.indexOf(x)], [-1] when absent. *)
Fixpoint indexOf {A} `{EqDecision A} (xs : list A) (x : A) : Z :=
  match xs with
  | [] => -1
  | y :: xs' =>
      if decide (y = x) then 0
      else let i := indexOf xs' x in if (i <? 0)%Z then -1 else i + 1
  end.

End JS.

(** ** JSON text (the built-ins [JSON.parse] and [JSON.stringify])

    The task store is one JSON text.  [JSON.parse] accepts exactly the texts
    of the JSON grammar (ECMA-404): one value, with white space around the
    tokens; numbers with an optional minus sign, no leading zero, an optional
    fraction and an optional exponent; strings with the nine escapes; the
    three names.  It throws a [SyntaxError] on every other text.

    A text is the sequence of the bytes of the file.  A [\u] escape stands
    for its code unit written in UTF-8 (each half of a surrogate pair on its
    own).  A number written with a fraction or an exponent is kept as it is
    written ([Real]); the numbers the program itself stores are integers
    ([Number]). *)

Module JSON.

#[local] Unset Elimination Schemes.
Inductive value :=
| Null
| Bool (b : bool)
| Number (z : Z)
| Real (literal : string)
| Str (s : string)
| Array (vs : list value)
| Object (fields : list (string * value)).
#[local] Set Elimination Schemes.

(** No number in [v] is written with a fraction or an exponent. *)
Fixpoint integral (v : value) : bool :=
  match v with
  | Real _ => false
  | Array vs => forallb integral vs
  | Object fields => forallb (fun f => integral (snd f)) fields
  | _ => true
  end.

Inductive token :=
| TLBrace | TRBrace | TLBracket | TRBracket | TColon | TComma
| TStr (s : string) | TNumber (z : Z) | TReal (literal : string) | TWord (w : string).

(** *** Lexer: a state machine over the characters of the text *)

Inductive lex_state :=
| LIdle
| LStr (acc : string)                       (* inside a string literal *)
| LEsc (acc : string)                       (* after a backslash *)
| LHex (acc : string) (k : nat) (v : N)     (* k hex digits of \u still due *)
| LMinus                                    (* after a minus sign *)
| LZero (neg : bool)                        (* after a leading zero *)
| LNum (neg : bool) (acc : Decimal.uint)    (* digits so far, last first *)
| LPoint (lit : string)                     (* after the point: a digit is due *)
| LFrac (lit : string)                      (* digits of the fraction *)
| LExp (lit : string)                       (* after e or E: a sign or a digit is due *)
| LSign (lit : string)                      (* after the sign: a digit is due *)
| LPow (lit : string)                       (* digits of the exponent *)
| LWord (acc : string).                     (* letters of a literal name *)

Definition is_ws (c : ascii) : bool :=
  match c with
  | " " | "009" | "010" | "013" => true
  | _ => false
  end%char.

Definition digit (c : ascii) : option (Decimal.uint -> Decimal.uint) :=
  match c with
  | "0" => Some Decimal.D0 | "1" => Some Decimal.D1 | "2" => Some Decimal.D2
  | "3" => Some Decimal.D3 | "4" => Some Decimal.D4 | "5" => Some Decimal.D5
  | "6" => Some Decimal.D6 | "7" => Some Decimal.D7 | "8" => Some Decimal.D8
  | "9" => Some Decimal.D9 | _ => None
  end%char.

Definition is_digit (c : ascii) : bool :=
  match digit c with Some _ => true | None => false end.

(** The value of a hexadecimal digit: 0-9, a-f or A-F. *)
Definition hex_digit (c : ascii) : option N :=
  let n := N_of_ascii c in
  if ((48 <=? n) && (n <=? 57))%N then Some (n - 48)%N
  else if ((97 <=? n) && (n <=? 102))%N then Some (n - 87)%N
  else if ((65 <=? n) && (n <=? 70))%N then Some (n - 55)%N
  else None.

Definition is_letter (c : ascii) : bool :=
  let n := N_of_ascii c in ((97 <=? n) && (n <=? 122))%N.

(** The letter that opens an exponent. *)
Definition is_exp (c : ascii) : bool := Ascii.eqb c "e" || Ascii.eqb c "E".

Definition snoc (s : string) (c : ascii) : string := s +:+ String c EmptyString.

(** The bytes of the code unit [v] (below 65536) in UTF-8. *)
Definition utf8 (v : N) : string :=
  if (v <? 128)%N then String (ascii_of_N v) EmptyString
  else if (v <? 2048)%N
  then String (ascii_of_N (192 + v / 64)) (String (ascii_of_N (128 + v mod 64)) EmptyString)
  else String (ascii_of_N (224 + v / 4096))
         (String (ascii_of_N (128 + (v / 64) mod 64))
            (String (ascii_of_N (128 + v mod 64)) EmptyString)).

Definition number_of (neg : bool) (acc : Decimal.uint) : Z :=
  Z.of_int (if neg then Decimal.Neg (Decimal.rev acc) else Decimal.Pos (Decimal.rev acc)).

(** The integer part as it was written. *)
Definition written (neg : bool) (acc : Decimal.uint) : string :=
  (if neg then "-" else EmptyString) +:+ NilEmpty.string_of_uint (Decimal.rev acc).

(** What a character does when no token is open. *)
Definition idle (c : ascii) : option (list token * lex_state) :=
  if is_ws c then Some ([], LIdle)
  else match digit c with
  | Some d => Some ([], if Ascii.eqb c "0" then LZero false else LNum false (d Decimal.Nil))
  | None =>
      if is_letter c then Some ([], LWord (String c EmptyString))
      else match c with
      | "{" => Some ([TLBrace], LIdle)
      | "}" => Some ([TRBrace], LIdle)
      | "[" => Some ([TLBracket], LIdle)
      | "]" => Some ([TRBracket], LIdle)
      | ":" => Some ([TColon], LIdle)
      | "," => Some ([TComma], LIdle)
      | "034" => Some ([], LStr EmptyString)
      | "-" => Some ([], LMinus)
      | _ => None
      end%char
  end.

(** The token [t] is complete and [c] is the character after it. *)
Definition close (t : token) (c : ascii) : option (list token * lex_state) :=
  match idle c with
  | Some (ts, st') => Some (t :: ts, st')
  | None => None
  end.

(** After the integer part [lit] of value [z]: a fraction, an exponent, or
    the end of the number. *)
Definition after_int (z : Z) (lit : string) (c : ascii) : option (list token * lex_state) :=
  if Ascii.eqb c "." then Some ([], LPoint (snoc lit c))
  else if is_exp c then Some ([], LExp (snoc lit c))
  else close (TNumber z) c.

Definition step (st : lex_state) (c : ascii) : option (list token * lex_state) :=
  match st with
  | LIdle => idle c
  | LStr acc =>
      match c with
      | "034" => Some ([TStr acc], LIdle)
      | "\" => Some ([], LEsc acc)
      | _ => if (N_of_ascii c <? 32)%N then None else Some ([], LStr (snoc acc c))
      end%char
  | LEsc acc =>
      match c with
      | "034" | "\" | "/" => Some ([], LStr (snoc acc c))
      | "b" => Some ([], LStr (snoc acc "008"))
      | "f" => Some ([], LStr (snoc acc "012"))
      | "n" => Some ([], LStr (snoc acc "010"))
      | "r" => Some ([], LStr (snoc acc "013"))
      | "t" => Some ([], LStr (snoc acc "009"))
      | "u" => Some ([], LHex acc 4 0%N)
      | _ => None
      end%char
  | LHex acc k v =>
      match hex_digit c, k with
      | Some h, S O => Some ([], LStr (acc +:+ utf8 (16 * v + h)%N))
      | Some h, S k' => Some ([], LHex acc k' (16 * v + h)%N)
      | _, _ => None
      end
  | LMinus =>
      match digit c with
      | Some d => Some ([], if Ascii.eqb c "0" then LZero true else LNum true (d Decimal.Nil))
      | None => None
      end
  | LZero neg =>
      (* no digit may follow a leading zero *)
      if is_digit c then None
      else after_int 0 (written neg (Decimal.D0 Decimal.Nil)) c
  | LNum neg acc =>
      match digit c with
      | Some d => Some ([], LNum neg (d acc))
      | None => after_int (number_of neg acc) (written neg acc) c
      end
  | LPoint lit =>
      if is_digit c then Some ([], LFrac (snoc lit c)) else None
  | LFrac lit =>
      if is_digit c then Some ([], LFrac (snoc lit c))
      else if is_exp c then Some ([], LExp (snoc lit c))
      else close (TReal lit) c
  | LExp lit =>
      if is_digit c then Some ([], LPow (snoc lit c))
      else if Ascii.eqb c "+" || Ascii.eqb c "-" then Some ([], LSign (snoc lit c))
      else None
  | LSign lit =>
      if is_digit c then Some ([], LPow (snoc lit c)) else None
  | LPow lit =>
      if is_digit c then Some ([], LPow (snoc lit c))
      else close (TReal lit) c
  | LWord acc =>
      if is_letter c then Some ([], LWord (snoc acc c))
      else close (TWord acc) c
  end.

(** At the end of the text an open number or name is complete; an open
    string, a lone minus sign, and a point, an exponent letter or a sign
    with no digit after it are errors. *)
Definition finish (st : lex_state) : option (list token) :=
  match st with
  | LIdle => Some []
  | LZero _ => Some [TNumber 0]
  | LNum neg acc => Some [TNumber (number_of neg acc)]
  | LFrac lit | LPow lit => Some [TReal lit]
  | LWord acc => Some [TWord acc]
  | _ => None
  end.

Definition prepend (ts : list token) (o : option (list token)) : option (list token) :=
  match o with
  | Some ts' => Some (ts ++ ts')
  | None => None
  end.

Fixpoint lex (st : lex_state) (s : string) : option (list token) :=
  match s with
  | EmptyString => finish st
  | String c s' =>
      match step st c with
      | Some (ts, st') => prepend ts (lex st' s')
      | None => None
      end
  end.

(** *** Parser: recursive descent over the tokens *)

Fixpoint parse_value (fuel : nat) (ts : list token) : option (value * list token) :=
  match fuel with
  | O => None
  | S fuel' =>
      match ts with
      | TWord "null" :: r => Some (Null, r)
      | TWord "true" :: r => Some (Bool true, r)
      | TWord "false" :: r => Some (Bool false, r)
      | TNumber z :: r => Some (Number z, r)
      | TReal lit :: r => Some (Real lit, r)
      | TStr s :: r => Some (Str s, r)
      | TLBracket :: TRBracket :: r => Some (Array [], r)
      | TLBracket :: r =>
          match parse_elements fuel' r with
          | Some (vs, r') => Some (Array vs, r')
          | None => None
          end
      | TLBrace :: TRBrace :: r => Some (Object [], r)
      | TLBrace :: r =>
          match parse_members fuel' r with
          | Some (fs, r') => Some (Object fs, r')
          | None => None
          end
      | _ => None
      end
  end
with parse_elements (fuel : nat) (ts : list token) : option (list value * list token) :=
  match fuel with
  | O => None
  | S fuel' =>
      match parse_value fuel' ts with
      | Some (v, TComma :: r) =>
          match parse_elements fuel' r with
          | Some (vs, r') => Some (v :: vs, r')
          | None => None
          end
      | Some (v, TRBracket :: r) => Some ([v], r)
      | _ => None
      end
  end
with parse_members (fuel : nat) (ts : list token) : option (list (string * value) * list token) :=
  match fuel with
  | O => None
  | S fuel' =>
      match ts with
      | TStr k :: TColon :: r =>
          match parse_value fuel' r with
          | Some (v, TComma :: r') =>
              match parse_members fuel' r' with
              | Some (fs, r'') => Some ((k, v) :: fs, r'')
              | None => None
              end
          | Some (v, TRBrace :: r') => Some ([(k, v)], r')
          | _ => None
          end
      | _ => None
      end
  end.

(** [JSON.parse(text)]: [None] stands for the [SyntaxError] it throws. *)
Definition parse (text : string) : option value :=
  match lex LIdle text with
  | Some ts =>
      match parse_value (S (2 * List.length ts)) ts with
      | Some (v, []) => Some v
      | _ => None
      end
  | None => None
  end.

End JSON.

(** *** Printer: [JSON.stringify(value, null, 2)]

    Written with an explicit continuation [k], the text that follows.  A
    [Real] is printed as it was written; [JSON.stringify] prints the
    shortest form of the number instead, which may differ: the properties
    of the printer below are stated for [integral] values. *)

Module JSONPrint.
Import JSON.

Definition hex_char (n : N) : ascii :=
  match n with
  | 0 => "0" | 1 => "1" | 2 => "2" | 3 => "3" | 4 => "4" | 5 => "5"
  | 6 => "6" | 7 => "7" | 8 => "8" | 9 => "9" | 10 => "a" | 11 => "b"
  | 12 => "c" | 13 => "d" | 14 => "e" | _ => "f"
  end%N%char.

Definition escape_char (c : ascii) (k : string) : string :=
  match c with
  | "034" => String "\" (String "034" k)
  | "\" => String "\" (String "\" k)
  | "008" => String "\" (String "b" k)
  | "012" => String "\" (String "f" k)
  | "010" => String "\" (String "n" k)
  | "013" => String "\" (String "r" k)
  | "009" => String "\" (String "t" k)
  | _ =>
      let n := N_of_ascii c in
      if (n <? 32)%N
      then String "\" (String "u" (String "0" (String "0"
             (String (hex_char (n / 16)) (String (hex_char (n mod 16)) k)))))
      else String c k
  end%char.

Fixpoint escape (s : string) (k : string) : string :=
  match s with
  | EmptyString => k
  | String c s' => escape_char c (escape s' k)
  end.

Definition print_string (s : string) (k : string) : string :=
  String "034"%char (escape s (String "034"%char k)).

Definition print_number (z : Z) (k : string) : string :=
  NilEmpty.string_of_int (Z.to_int z) +:+ k.

Fixpoint spaces (n : nat) (k : string) : string :=
  match n with
  | O => k
  | S n' => String " "%char (spaces n' k)
  end.

Definition newline (ind : nat) (k : string) : string :=
  String "010"%char (spaces ind k).

Fixpoint print (ind : nat) (v : value) (k : string) {struct v} : string :=
  match v with
  | Null => "null" +:+ k
  | Bool true => "true" +:+ k
  | Bool false => "false" +:+ k
  | Number z => print_number z k
  | Real lit => lit +:+ k
  | Str s => print_string s k
  | Array [] => "[]" +:+ k
  | Array (v0 :: vs) =>
      String "["%char (newline (ind + 2) (print (ind + 2) v0
        (foldr (fun v' acc => String ","%char (newline (ind + 2) (print (ind + 2) v' acc)))
               (newline ind (String "]"%char k)) vs)))
  | Object [] => "{}" +:+ k
  | Object (f0 :: fs) =>
      String "{"%char (newline (ind + 2) (print_string (fst f0) (String ":"%char
        (String " "%char (print (ind + 2) (snd f0)
          (foldr (fun f acc =>
                    String ","%char (newline (ind + 2) (print_string (fst f)
                      (String ":"%char (String " "%char (print (ind + 2) (snd f) acc))))))
                 (newline ind (String "}"%char k)) fs))))))
  end.

Definition stringify (v : value) : string := print 0 v EmptyString.

(** The tokens of the text of a value, followed by the tokens [k]. *)
Fixpoint tokens (v : value) (k : list token) {struct v} : list token :=
  match v with
  | Null => TWord "null" :: k
  | Bool true => TWord "true" :: k
  | Bool false => TWord "false" :: k
  | Number z => TNumber z :: k
  | Real lit => TReal lit :: k
  | Str s => TStr s :: k
  | Array [] => TLBracket :: TRBracket :: k
  | Array (v0 :: vs) =>
      TLBracket :: tokens v0
        (foldr (fun v' acc => TComma :: tokens v' acc) (TRBracket :: k) vs)
  | Object [] => TLBrace :: TRBrace :: k
  | Object (f0 :: fs) =>
      TLBrace :: TStr (fst f0) :: TColon :: tokens (snd f0)
        (foldr (fun f acc => TComma :: TStr (fst f) :: TColon :: tokens (snd f) acc)
               (TRBrace :: k) fs)
  end.

(** Fuel that suffices to parse the tokens of a value. *)
Fixpoint size (v : value) : nat :=
  match v with
  | Array vs => S (foldr (fun v' acc => S (size v' + acc)) O vs)
  | Object fs => S (foldr (fun f acc => S (size (snd f) + acc)) O fs)
  | _ => 1
  end.

End JSONPrint.

(** *** Tasks as JSON values

    [JSON.stringify] writes the properties of a task in the order the object
    literals of the source list them.  [JSON.parse(text) as Task[]] is an
    unchecked cast: a well-formed text that is not an array of tasks is
    outside the typed model, and [decode_tasks] answers [None] on it. *)

Module TaskJSON.
Import JSON.

Definition encode_priority (p : Priority) : value :=
  Str match p with low => "low" | medium => "medium" | high => "high" end.

Definition encode_entry (e : WorkEntry) : value :=
  Object [("work_summary", Str (work_summary e))].

Definition encode_task (t : Task) : value :=
  Object [("id", Number (id t));
          ("parentId", Number (parentId t));
          ("description", Str (description t));
          ("priority", encode_priority (priority t));
          ("work_ledger", Array (map encode_entry (work_ledger t)));
          ("completed", Bool (completed t));
          ("requirements_for_success", Str (requirements_for_success t))].

Definition encode_tasks (ts : list Task) : value := Array (map encode_task ts).

(** Property lookup on a parsed object: of two equal keys the later wins. *)
Fixpoint field (k : string) (fs : list (string * value)) : option value :=
  match fs with
  | [] => None
  | (k', v) :: fs' =>
      match field k fs' with
      | Some v' => Some v'
      | None => if String.eqb k' k then Some v else None
      end
  end.

Definition decode_priority (v : value) : option Priority :=
  match v with
  | Str "low" => Some low
  | Str "medium" => Some medium
  | Str "high" => Some high
  | _ => None
  end.

Definition decode_entry (v : value) : option WorkEntry :=
  match v with
  | Object fs =>
      match field "work_summary" fs with
      | Some (Str s) => Some {| work_summary := s |}
      | _ => None
      end
  | _ => None
  end.

Fixpoint decode_list {A} (f : value -> option A) (vs : list value) : option (list A) :=
  match vs with
  | [] => Some []
  | v :: vs' =>
      match f v, decode_list f vs' with
      | Some a, Some l => Some (a :: l)
      | _, _ => None
      end
  end.

Definition decode_task (v : value) : option Task :=
  match v with
  | Object fs =>
      match field "id" fs, field "parentId" fs, field "description" fs,
            field "priority" fs, field "work_ledger" fs, field "completed" fs,
            field "requirements_for_success" fs with
      | Some (Number i), Some (Number p), Some (Str d), Some pr,
        Some (Array wl), Some (Bool c), Some (Str r) =>
          match decode_priority pr, decode_list decode_entry wl with
          | Some pr', Some wl' =>
              Some {| id := i; parentId := p; description := d; priority := pr';
                      work_ledger := wl'; requirements_for_success := r;
                      completed := c |}
          | _, _ => None
          end
      | _, _, _, _, _, _, _ => None
      end
  | _ => None
  end.

Definition decode_tasks (v : value) : option (list Task) :=
  match v with
  | Array vs => decode_list decode_task vs
  | _ => None
  end.

End TaskJSON.

(** *** Notions for the round trip of a JSON text *)

Module JSONSpec.
Import JSON JSONPrint.

(** The text [k] cannot continue a number or a name: it is empty or starts
    with a character that is neither a digit, nor a letter, nor a point, nor
    the capital letter of an exponent. *)
Definition delimited (k : string) : Prop :=
  match k with
  | EmptyString => True
  | String c _ =>
      digit c = None /\ is_letter c = false /\ Ascii.eqb c "." = false /\ is_exp c = false
  end.

(** Induction on values that reaches the elements of arrays and the
    members of objects. *)
Definition value_ind' (P : value -> Prop)
    (HNull : P Null) (HBool : forall b, P (Bool b)) (HNumber : forall z, P (Number z))
    (HReal : forall lit, P (Real lit)) (HStr : forall s, P (Str s))
    (HArray : forall vs, Forall P vs -> P (Array vs))
    (HObject : forall fs, Forall (fun f => P (snd f)) fs -> P (Object fs)) :
  forall v, P v :=
  fix F (v : value) : P v :=
    match v with
    | Null => HNull
    | Bool b => HBool b
    | Number z => HNumber z
    | Real lit => HReal lit
    | Str s => HStr s
    | Array vs =>
        HArray vs ((fix G (l : list value) : Forall P l :=
                      match l with
                      | [] => @List.Forall_nil _ _
                      | x :: l' => @List.Forall_cons _ P x l' (F x) (G l')
                      end) vs)
    | Object fs =>
        HObject fs ((fix G (l : list (string * value)) : Forall (fun f => P (snd f)) l :=
                       match l with
                       | [] => @List.Forall_nil _ _
                       | x :: l' => @List.Forall_cons _ (fun f => P (snd f)) x l' (F (snd x)) (G l')
                       end) fs)
    end.

(** The text after the first element of an array, and after the first
    member of an object, as [print] writes them. *)
Definition print_elements (ind : nat) (k : string) (vs : list value) : string :=
  foldr (fun v' acc => String ","%char (newline (ind + 2) (print (ind + 2) v' acc)))
        (newline ind (String "]"%char k)) vs.

Definition print_members (ind : nat) (k : string) (fs : list (string * value)) : string :=
  foldr (fun f acc =>
           String ","%char (newline (ind + 2) (print_string (fst f)
             (String ":"%char (String " "%char (print (ind + 2) (snd f) acc))))))
        (newline ind (String "}"%char k)) fs.

(** The tokens of the same. *)
Definition tokens_elements (k : list token) (vs : list value) : list token :=
  foldr (fun v' acc => TComma :: tokens v' acc) (TRBracket :: k) vs.

Definition tokens_members (k : list token) (fs : list (string * value)) : list token :=
  foldr (fun f acc => TComma :: TStr (fst f) :: TColon :: tokens (snd f) acc)
        (TRBrace :: k) fs.

(** The printed text of [v] lexes to the tokens of [v]. *)
Definition lexes (v : value) : Prop :=
  integral v = true ->
  forall ind k ts, delimited k -> lex LIdle k = Some ts ->
                   lex LIdle (print ind v k) = Some (tokens v ts).

(** Fuel that suffices for the elements, and for the members. *)
Definition need_elements (vs : list value) : nat :=
  foldr (fun v' acc => S (size v' + acc)) O vs.

Definition need_members (fs : list (string * value)) : nat :=
  foldr (fun f acc => S (size (snd f) + acc)) O fs.

(** The tokens of [v] parse back to [v], given fuel for its size. *)
Definition parses (v : value) : Prop :=
  forall fuel k, (size v <= fuel)%nat -> parse_value fuel (tokens v k) = Some (v, k).

(** The fuel [parse] gives is enough. *)
Definition bounded (v : value) : Prop :=
  forall k, (size v + 2 * length k <= 2 * length (tokens v k))%nat.

End JSONSpec.

(** ** The world the program runs in *)

(** A node of the file system: a file with its text, or a directory. *)
Inductive node := File (text : string) | Dir.

(** The request sent at each call of an external service: the values the
    source interpolates into its prompt. *)
Inductive Request :=
| ClassifyRequest (taskDescription workDone : string)
| RelevantFilesRequest (prompt : string) (dirTree : list string)
| SaveLocationRequest (prompt : string) (dirTree : list string)
| GenerateRequest (context workSummary prompt : string)
| EvaluateRequest (taskDescription workDone : string).

Record World := {
  fs : gmap string node;      (* path |-> node *)
  taskNum : Z;                (* [let taskNum = 0], line 9 *)
  taskStack : list Z;         (* the array the caller passes to processTask *)
  trace : list Request;       (* requests sent so far, oldest first *)
}.

Inductive Exn :=
| Error (message : string)    (* [throw new Error(message)] *)
| SyntaxError                 (* thrown by [JSON.parse] *)
| CastError                   (* a parsed value that is no [Task[]] *)
| ServiceError (what : string) (* a service call or its response check fails *)
| ENOENT                      (* no such file or directory *)
| EISDIR                      (* the path is a directory where a file is needed *)
| ENOTDIR                     (* a file lies where a directory is needed *)
| EEXIST.                     (* the path exists already *)

Inductive Outcome (A : Type) :=
| Returned (a : A)
| Thrown (e : Exn).
Arguments Returned {A} a.
Arguments Thrown {A} e.

(** An [async] function: it runs from a world to an outcome and a world.
    The effects made before an exception is thrown stay made. *)
Definition M (A : Type) : Type := World -> Outcome A * World.

Definition ret {A} (a : A) : M A := fun w => (Returned a, w).
Definition throw {A} (e : Exn) : M A := fun w => (Thrown e, w).
Definition bind {A B} (m : M A) (f : A -> M B) : M B :=
  fun w => match m w with
           | (Returned a, w') => f a w'
           | (Thrown e, w') => (Thrown e, w')
           end.

Declare Scope M_scope.
Delimit Scope M_scope with M.
Notation "'let*' x := m 'in' k" := (bind m (fun x => k))
  (at level 10, x name, m at level 100, k at level 200) : M_scope.
Notation "m ;;; k" := (bind m (fun _ => k))
  (at level 100, k at level 200, right associativity) : M_scope.
Local Open Scope M_scope.

Fixpoint mapM {A B} (f : A -> M B) (xs : list A) : M (list B) :=
  match xs with
  | [] => ret []
  | x :: xs' => let* y := f x in let* ys := mapM f xs' in ret (y :: ys)
  end.

Definition set_fs (f : gmap string node -> gmap string node) (w : World) : World :=
  {| fs := f (fs w); taskNum := taskNum w; taskStack := taskStack w; trace := trace w |}.

(** ** node:fs/promises

    The calls fail as the calls of node do: on a path that does not exist,
    on a directory where a file is needed and on a file where a directory is
    needed.  A failed call changes nothing.  What is not modelled is the
    machine: permissions, a full disk, links.

    The keys of [fs] are the paths of the files and of the directories, as
    the program spells them: the calls do not resolve [.], [..] or a double
    slash, so the properties that depend on which file a path stands for
    are stated for names in which none of these occurs ([plain], below).
    The state of a disk lists the directories below the current one that
    lead to an entry, as [Ex.boot] lists [./work].  The calls are defined
    on every map: where an entry lies below a path that is not listed, they
    take the path for the directory it has to be. *)

Module Fs.

Fixpoint starts_with (pre s : string) : bool :=
  match pre, s with
  | EmptyString, _ => true
  | String a pre', String b s' => Ascii.eqb a b && starts_with pre' s'
  | String _ _, EmptyString => false
  end.

Definition is_file (m : gmap string node) (p : string) : bool :=
  match m !! p with
  | Some (File _) => true
  | _ => false
  end.

(** An entry lies below [d]. *)
Definition has_below (m : gmap string node) (d : string) : bool :=
  existsb (fun e => starts_with (d +:+ "/") (fst e)) (map_to_list m).

Definition is_directory (m : gmap string node) (d : string) : bool :=
  match m !! d with
  | Some Dir => true
  | Some (File _) => false
  | None => has_below m d
  end.

(** The path and the directories above it, nearest first. *)
Definition ancestors (path : string) : list string :=
  let segments := JS.split path "/" in
  map (fun n => JS.join (take n segments) "/") (rev (seq 1 (length segments))).

(** The directory a path lies in. *)
Definition parent (path : string) : string :=
  JS.join (JS.slice_init (JS.split path "/")) "/".

(** The error for a path that holds nothing: ENOTDIR when a file lies on the
    way to it, ENOENT otherwise. *)
Definition unreachable (m : gmap string node) (path : string) : Exn :=
  if is_directory m (parent path) then ENOENT
  else if existsb (is_file m) (ancestors (parent path)) then ENOTDIR
  else ENOENT.

(** [readFile(path, "utf8")] *)
Definition readFile (path : string) : M string :=
  fun w => match fs w !! path with
           | Some (File text) => (Returned text, w)
           | _ => if is_directory (fs w) path then (Thrown EISDIR, w)
                  else (Thrown (unreachable (fs w) path), w)
           end.

(** [writeFile(path, content)]: it replaces the text of a file, and creates
    the file in a directory that exists. *)
Definition writeFile (path content : string) : M unit :=
  fun w => if is_directory (fs w) path then (Thrown EISDIR, w)
           else match fs w !! path with
                | Some _ => (Returned tt, set_fs (insert path (File content)) w)
                | None =>
                    if is_directory (fs w) (parent path)
                    then (Returned tt, set_fs (insert path (File content)) w)
                    else (Thrown (unreachable (fs w) path), w)
                end.

(** Make [d] a directory unless it is one. *)
Definition ensure_dir (d : string) (m : gmap string node) : gmap string node :=
  match m !! d with
  | Some _ => m
  | None => if has_below m d then m else <[d := Dir]> m
  end.

(** [mkdir(path, { recursive: true })]: it fails when a file lies at the
    path or on the way to it. *)
Definition mkdir_recursive (path : string) : M unit :=
  fun w => if is_file (fs w) path then (Thrown EEXIST, w)
           else if existsb (is_file (fs w)) (ancestors path) then (Thrown ENOTDIR, w)
           else (Returned tt, set_fs (fun m => foldr ensure_dir m (ancestors path)) w).

Fixpoint strip_prefix (pre s : string) : option string :=
  match pre, s with
  | EmptyString, EmptyString => None
  | EmptyString, _ => Some s
  | String a pre', String b s' => if Ascii.eqb a b then strip_prefix pre' s' else None
  | String _ _, EmptyString => None
  end.

(** [readdir(root, { recursive: true })]: the paths, relative to [root], of
    every file and every directory below it. *)
Definition readdir_recursive (root : string) : M (list string) :=
  fun w => if is_directory (fs w) root
           then (Returned (omap (fun e => strip_prefix (root +:+ "/") (fst e))
                                (map_to_list (fs w))), w)
           else if is_file (fs w) root then (Thrown ENOTDIR, w)
           else (Thrown (unreachable (fs w) root), w).

End Fs.

(** ** External services *)

(** An element of [subtasks] in [TaskProcessSchema]. *)
Record Subtask := {
  task_description : string;
  subtask_requirements_for_success : string;
  subtask_priority : Priority;
}.

(** [TaskProcessSchema], a union discriminated by [type]. *)
Inductive TaskProcess :=
| subtasks (sts : list Subtask)
| executePromptT (prompt : string)
| notReady (missingDependencies : option (list string)) (reason : string).

Inductive Status := complete | continue | defer.

(** [PostProcessDecisionSchema] *)
Record PostProcessDecision := { status : Status; reason : option string }.

(** [SaveLocationSchema] *)
Record SaveLocation := { path : string; save_reason : option string }.

(** [TextOutputSchema] *)
Record TextOutput := { content : string; summary_of_work_done : string }.

(** What the services answer.  The first argument is the number of requests
    sent before this one, so that an answer may change from call to call.
    [Thrown] covers a failed call and a response the source's [JSON.parse] or
    schema check rejects; the two OpenAI oracles answer [None] when
    [output_parsed] is null. *)
Record Services := {
  classifier : nat -> string -> string -> Outcome (option TaskProcess);
  relevantFiles : nat -> string -> list string -> Outcome (list string);
  saveLocation : nat -> string -> list string -> Outcome SaveLocation;
  generator : nat -> string -> string -> string -> Outcome (option TextOutput);
  evaluator : nat -> string -> string -> Outcome PostProcessDecision;
}.

(** Send [req]; [answer] is the oracle applied to the call index. *)
Definition ask {A} (req : Request) (answer : nat -> Outcome A) : M A :=
  fun w => (answer (length (trace w)),
            {| fs := fs w; taskNum := taskNum w; taskStack := taskStack w;
               trace := trace w ++ [req] |}).

(** ** The program (scheduler.ts) *)

Section Scheduler.

Variable svc : Services.

(** lines 39-44 *)
Definition readWorkDirTree : M (list string) :=
  let* workDir := Fs.readdir_recursive "./work" in
  (* remove directories from the array *)
  let files := List.filter (fun item => negb (JS.includes item ".")) workDir in
  ret files.

(** lines 46-54: [undefined] is [None]. *)
Definition readWorkFile (fileName : string) : M (option string) :=
  fun w => match Fs.readFile ("./work/" +:+ fileName) w with
           | (Returned file, w') => (Returned (Some file), w')
           | (Thrown _, w') => (Returned None, w')
           end.

(** lines 56-65 *)
Definition writeWorkFile (fileName content : string) : M unit :=
  (if JS.includes fileName "/"
   then let dirPath := JS.join (JS.slice_init (JS.split fileName "/")) "/" in
        Fs.mkdir_recursive ("./work/" +:+ dirPath)
   else ret tt) ;;;
  let fileName := if negb (JS.includes fileName ".") then fileName +:+ ".md" else fileName in
  Fs.writeFile ("./work/" +:+ fileName) content.

(** [JSON.parse(tasks) as Task[]] *)
Definition JSON_parse_tasks (text : string) : M (list Task) :=
  match JSON.parse text with
  | None => throw SyntaxError
  | Some v =>
      match TaskJSON.decode_tasks v with
      | Some ts => ret ts
      | None => throw CastError
      end
  end.

(** [JSON.stringify(tasks, null, 2)] *)
Definition JSON_stringify_tasks (tasks : list Task) : string :=
  JSONPrint.stringify (TaskJSON.encode_tasks tasks).

(** lines 71-77 *)
Definition readTasks : M (list Task) :=
  let* tasks := readWorkFile "tasks.json" in
  if JS.truthy tasks
  then match tasks with
       | Some text => JSON_parse_tasks text
       | None => ret []
       end
  else ret [].

(** lines 79-81 *)
Definition writeTasks (tasks : list Task) : M unit :=
  writeWorkFile "tasks.json" (JSON_stringify_tasks tasks).

(** lines 83-86 *)
Definition compareTaskPriority (a b : Task) : Z :=
  let priorityOrder := [low; medium; high] in
  JS.indexOf priorityOrder (priority a) - JS.indexOf priorityOrder (priority b).

(** lines 88-99.  [taskStack[taskStack.length - 1]] is [last taskStack]. *)
Definition getTaskList (taskStack : list Z) : M (list Task) :=
  let* tasks := readTasks in
  if (0 <? length taskStack)%nat
  then ret (JS.sort compareTaskPriority
              (filter (fun task => completed task = false)
                 (filter (fun task => Some (parentId task) = last taskStack) tasks)))
  else ret (JS.sort compareTaskPriority
              (filter (fun task => completed task = false) tasks)).

(** [task.work_ledger.map((work) => work.work_summary).join("\n")] *)
Definition workDone (task : Task) : string :=
  JS.join (map work_summary (work_ledger task)) (String "010" EmptyString).

(** lines 187-232 *)
Definition preProcessTask (task : Task) : M TaskProcess :=
  let* output := ask (ClassifyRequest (description task) (workDone task))
                     (fun n => classifier svc n (description task) (workDone task)) in
  match output with
  | None => throw (Error "No output from the model")
  | Some parsedOutput => ret parsedOutput
  end.

(** lines 239-275 *)
Definition postProcessTask (task : Task) : M PostProcessDecision :=
  ask (EvaluateRequest (description task) (workDone task))
      (fun n => evaluator svc n (description task) (workDone task)).

(** lines 335-374 *)
Definition getContext (prompt : string) : M string :=
  let* dirTree := readWorkDirTree in
  let* relevant := ask (RelevantFilesRequest prompt dirTree)
                       (fun n => relevantFiles svc n prompt dirTree) in
  let* fileContents :=
    mapM (fun file => let* content := readWorkFile file in ret (file, content)) relevant in
  let filteredFileContents :=
    omap (fun fc => match snd fc with
                    | Some content => Some (fst fc, content)
                    | None => None
                    end) fileContents in
  ret (JS.join (map (fun fc => fst fc +:+ String "010" EmptyString +:+ snd fc)
                    filteredFileContents)
               (String "010" (String "010" EmptyString))).

(** lines 382-412 *)
Definition getTaskSaveLocation (prompt : string) : M SaveLocation :=
  let* dirTree := readWorkDirTree in
  ask (SaveLocationRequest prompt dirTree) (fun n => saveLocation svc n prompt dirTree).

(** lines 420-461 *)
Definition executePrompt (prompt workSummary : string) : M string :=
  let* context := getContext prompt in
  let* saveLoc := getTaskSaveLocation prompt in
  let outputPath := path saveLoc in
  let* output := ask (GenerateRequest context workSummary prompt)
                     (fun n => generator svc n context workSummary prompt) in
  match output with
  | None => throw (Error "No output from the model")
  | Some parsedOutput =>
      writeWorkFile outputPath (content parsedOutput) ;;;
      ret (summary_of_work_done parsedOutput)
  end.

(** [{ next: boolean }] *)
Record Directive := { next : bool }.

(** lines 284-295: [taskNum++] and the object literal of one child. *)
Definition newSubtask (task : Task) (subtask : Subtask) : M Task :=
  fun w =>
    let n := taskNum w + 1 in
    (Returned {| id := n;
                 parentId := id task;
                 description := task_description subtask;
                 priority := subtask_priority subtask;
                 work_ledger := [];
                 requirements_for_success := subtask_requirements_for_success subtask;
                 completed := false |},
     {| fs := fs w; taskNum := n; taskStack := taskStack w; trace := trace w |}).

(** [taskStack.push(x)] *)
Definition push (x : Z) : M unit :=
  fun w => (Returned tt,
            {| fs := fs w; taskNum := taskNum w; taskStack := taskStack w ++ [x];
               trace := trace w |}).

Definition push_work (output : string) (t : Task) : Task :=
  {| id := id t; parentId := parentId t; description := description t;
     priority := priority t;
     work_ledger := work_ledger t ++ [{| work_summary := output |}];
     requirements_for_success := requirements_for_success t;
     completed := completed t |}.

Definition set_completed (t : Task) : Task :=
  {| id := id t; parentId := parentId t; description := description t;
     priority := priority t; work_ledger := work_ledger t;
     requirements_for_success := requirements_for_success t;
     completed := true |}.

(** lines 277-333.  [task] is the object the caller passed: nothing below
    assigns to it.  [updatedTask] is an element of the array just read, so
    mutating it changes that array at the index where [find] found it. *)
Definition processTask (task : Task) : M Directive :=
  let* preProcess := preProcessTask task in
  match preProcess with
  | notReady _ _ => ret {| next := true |}
  | subtasks sts =>
      (* create the subtasks *)
      let* children := mapM (newSubtask task) sts in
      (* save the subtasks *)
      let* currentTasks := readTasks in
      writeTasks (currentTasks ++ children) ;;;
      (* add current task to the task stack *)
      push (id task) ;;;
      ret {| next := true |}
  | executePromptT prompt =>
      (* execute the prompt *)
      let* output := executePrompt prompt (workDone task) in
      (* update the task with the new work that was done *)
      let* currentTasks := readTasks in
      (match JS.findIndex (fun t => id t =? id task) currentTasks with
       | Some i => writeTasks (alter (push_work output) i currentTasks)
       | None => ret tt
       end) ;;;
      (* do post processing *)
      let* postProcess := postProcessTask task in
      match status postProcess with
      | complete =>
          (* mark the task as completed *)
          let* currentTasks := readTasks in
          (match JS.findIndex (fun t => id t =? id task) currentTasks with
           | Some i => writeTasks (alter set_completed i currentTasks)
           | None => ret tt
           end) ;;;
          ret {| next := true |}
      | defer => ret {| next := true |}
      | continue => ret {| next := false |}
      end
  end.

End Scheduler.

(** ** Notions the properties are stated with *)

(** The position of a priority in the order low < medium < high. *)
Definition rank (p : Priority) : Z :=
  match p with low => 0 | medium => 1 | high => 2 end.

(** The candidates of a stack among the stored tasks, in store order: the
    incomplete tasks, restricted to the children of the top of the stack
    when there is one. *)
Definition candidates (stack : list Z) (tasks : list Task) : list Task :=
  filter (fun t => completed t = false /\ (stack = [] \/ Some (parentId t) = last stack)) tasks.

(** Priorities never increase along the list: high first. *)
Definition descending (l : list Task) : Prop :=
  StronglySorted (fun a b => rank (priority b) <= rank (priority a)) l.

(** Priorities never decrease along the list: low first. *)
Definition ascending (l : list Task) : Prop :=
  StronglySorted (fun a b => rank (priority a) <= rank (priority b)) l.

(** The text of the file at path [p], if there is one. *)
Definition file_in (m : gmap string node) (p : string) : option string :=
  match m !! p with
  | Some (File text) => Some text
  | _ => None
  end.

Definition file_at (w : World) (p : string) : option string := file_in (fs w) p.

(** The path [writeWorkFile] writes to. *)
Definition target (fileName : string) : string :=
  "./work/" +:+ (if JS.includes fileName "." then fileName else fileName +:+ ".md").

(** The state of the task persistence artifact. *)
Definition store_text (w : World) : option string := file_at w "./work/tasks.json".

(** The directory part of a file name, as [writeWorkFile] computes it. *)
Definition dirPath (fileName : string) : string :=
  JS.join (JS.slice_init (JS.split fileName "/")) "/".

(** A segment of a path that names an entry of its directory: it is not
    empty, neither [.] nor [..], holds no NUL and is of a length every file
    system takes. *)
Definition plain_segment (s : string) : bool :=
  negb (String.eqb s EmptyString) && negb (String.eqb s ".") && negb (String.eqb s "..")
  && negb (JS.includes s "000") && (String.length s <=? 200)%nat.

(** A file name that is spelled in one way only: segments separated by
    single slashes, each naming an entry.  Such a name and the path made of
    it stand for one file, and two of them that differ stand for two files;
    a name such as [./tasks.json], [a//b] or [.] is not plain. *)
Definition plain (fileName : string) : bool :=
  forallb plain_segment (JS.split fileName "/") && (String.length fileName <=? 1000)%nat.

(** The file system after a write under [fileName] that succeeds. *)
Definition written_fs (fileName content : string) (m : gmap string node)
  : gmap string node :=
  <[target fileName := File content]>
    (if JS.includes fileName "/"
     then foldr Fs.ensure_dir m (Fs.ancestors ("./work/" +:+ dirPath fileName))
     else m).

(** [writeWorkFile] can write under [fileName] in [w].  When the name has a
    directory part, no file lies at that directory or on the way to it (the
    directories that are missing get created); when it has none, the working
    directory exists.  And the path to write is not a directory. *)
Definition writable (w : World) (fileName : string) : Prop :=
  (if JS.includes fileName "/"
   then existsb (Fs.is_file (fs w)) (Fs.ancestors ("./work/" +:+ dirPath fileName)) = false
   else Fs.is_directory (fs w) "./work" = true) /\
  Fs.is_directory (fs w) (target fileName) = false.

(** The last segment of a path: the name of the file. *)
Definition basename (p : string) : string := List.last (JS.split p "/") EmptyString.

(** The name of the file has an extension: a dot in its last segment. *)
Definition has_extension (p : string) : bool := JS.includes (basename p) ".".

(** The children made from the subtasks of a verdict when the counter
    stands at [n]: numbered n+1, n+2, ... in the order of the verdict. *)
Fixpoint children_from (task : Task) (n : Z) (sts : list Subtask) : list Task :=
  match sts with
  | [] => []
  | s :: sts' =>
      {| id := n + 1; parentId := id task;
         description := task_description s;
         priority := subtask_priority s;
         work_ledger := [];
         requirements_for_success := subtask_requirements_for_success s;
         completed := false |} :: children_from task (n + 1) sts'
  end.

(** [w'] differs from [w] at most in the trace of requests: the file
    system, the counter and the stack are the same. *)
Definition same_state (w w' : World) : Prop :=
  fs w' = fs w /\ taskNum w' = taskNum w /\ taskStack w' = taskStack w.

(** A computation that only reads and asks. *)
Definition read_only {A} (m : M A) : Prop :=
  forall w r w', m w = (r, w') -> same_state w w'.

(** A computation that has changed nothing when it throws. *)
Definition read_only_on_throw {A} (m : M A) : Prop :=
  forall w e w', m w = (Thrown e, w') -> same_state w w'.

(** ** Concrete tasks, stores and services *)

Module Ex.

(** The root task of [main]. *)
Definition root : Task :=
  {| id := 1; parentId := 0;
     description := "Write a blog post";
     priority := high; work_ledger := [];
     requirements_for_success := "Easy to follow";
     completed := false |}.

Definition child (i : Z) (p : Priority) (done : bool) : Task :=
  {| id := i; parentId := 1; description := "Outline"; priority := p;
     work_ledger := []; requirements_for_success := "Has sections";
     completed := done |}.

(** A fresh process ([taskNum] is 1 once [main] has numbered the root) whose
    working directory exists and holds nothing. *)
Definition boot : World :=
  {| fs := {[ "./work" := Dir ]}; taskNum := 1; taskStack := []; trace := [] |}.

(** The same, with [tasks] in the store. *)
Definition stored (tasks : list Task) : World := snd (writeTasks tasks boot).

(** The same, with an arbitrary text in the store. *)
Definition with_store_text (text : string) : World :=
  set_fs (insert "./work/tasks.json" (File text)) boot.

Definition low_high_medium : list Task :=
  [child 2 low false; child 3 high false; child 4 medium false].

(** Services that always give the same answers: the classifier [verdict],
    the generator [out], the evaluator [st]; no file is relevant and the
    result is to be saved under [notes/plan]. *)
Definition services (verdict : TaskProcess) (out : option TextOutput) (st : Status)
  : Services :=
  {| classifier := fun _ _ _ => Returned (Some verdict);
     relevantFiles := fun _ _ _ => Returned [];
     saveLocation := fun _ _ _ => Returned {| path := "notes/plan"; save_reason := None |};
     generator := fun _ _ _ _ => Returned out;
     evaluator := fun _ _ _ => Returned {| status := st; reason := None |} |}.

Definition draft : Subtask :=
  {| task_description := "Draft"; subtask_requirements_for_success := "Complete";
     subtask_priority := medium |}.

Definition outline : TextOutput :=
  {| content := "# Outline"; summary_of_work_done := "Wrote the outline" |}.

End Ex.

(** ** The rest of the program: directory set-up, deletion, planning, main *)

(** [xs.includes(x)] on an array of strings. *)
Definition Array_includes (xs : list string) (x : string) : bool :=
  existsb (String.eqb x) xs.

(** More of node:fs/promises.  [mkdir] without [recursive] throws when the
    path exists; [unlink] throws when the path holds no file. *)
Module FsDir.

(** The name of [path] as an entry directly inside [root], if it is one. *)
Definition child_name (root path : string) : option string :=
  match Fs.strip_prefix (root +:+ "/") path with
  | Some rel => if JS.includes rel "/" then None else Some rel
  | None => None
  end.

(** [readdir(root)]: the names of the entries directly inside [root]. *)
Definition readdir (root : string) : M (list string) :=
  fun w => (Returned (omap (fun e => child_name root (fst e)) (map_to_list (fs w))), w).

(** [mkdir(path)] *)
Definition mkdir (path : string) : M unit :=
  fun w => match fs w !! path with
           | Some _ => (Thrown (Error "EEXIST: file already exists"), w)
           | None => (Returned tt, set_fs (insert path Dir) w)
           end.

(** [unlink(path)] *)
Definition unlink (path : string) : M unit :=
  fun w => match fs w !! path with
           | Some (File _) => (Returned tt, set_fs (delete path) w)
           | Some Dir => (Thrown (Error "EISDIR: illegal operation on a directory"), w)
           | None => (Thrown ENOENT, w)
           end.

End FsDir.

(** lines 29-37 *)
Definition createWorkDir : M unit :=
  (* read the ./work directory *)
  let* currentDir := FsDir.readdir "." in
  (* if the ./work directory does not exist, create it *)
  if negb (Array_includes currentDir "work")
  then FsDir.mkdir "./work"
  else ret tt.

(** lines 67-69 *)
Definition deleteWorkFile (fileName : string) : M unit :=
  FsDir.unlink ("./work/" +:+ fileName).

(** An element of [SubtaskResponseSchema] (lines 101-105). *)
Record SubtaskItem := {
  subtask : string;
  item_priority : Priority;
  item_requirements_for_success : string;
}.

(** lines 141-152: [taskNum++] and the object literal of one planned task. *)
Definition newPlannedTask (task : Task) (item : SubtaskItem) : M Task :=
  fun w =>
    let n := taskNum w + 1 in
    (Returned {| id := n;
                 parentId := id task;
                 description := subtask item;
                 priority := item_priority item;
                 work_ledger := [];
                 requirements_for_success := item_requirements_for_success item;
                 completed := false |},
     {| fs := fs w; taskNum := n; taskStack := taskStack w; trace := trace w |}).

(** lines 108-155.  [answer] is what the planning service gave for
    [task.description] once [JSON.parse] and the schema check have run on
    it: the parsed response, or the exception one of them or the call
    threw. *)
Definition makeTaskSubtasks (answer : Outcome (list SubtaskItem)) (task : Task)
  : M (list Task) :=
  let* parsedResponse := (fun w => (answer, w)) in
  mapM (newPlannedTask task) parsedResponse.

(** The root task written out in [main] (lines 467-475). *)
Definition mainTask : Task :=
  {| id := 1;
     parentId := 0;
     description := "Write a blog post about the benefits of using AI to plan tasks";
     priority := high;
     work_ledger := [];
     requirements_for_success :=
       "The blog post should be written in a way that is easy to understand and follow.";
     completed := false |}.

(** lines 463-477.  What [console.log] prints is what [main] returns here. *)
Definition main (answer : Outcome (list SubtaskItem)) : M (list Task) :=
  createWorkDir ;;;
  (* const taskStack = [] *)
  (fun w => (Returned tt, {| fs := fs w; taskNum := taskNum w; taskStack := [];
                             trace := trace w |})) ;;;
  (* taskNum++ *)
  (fun w => (Returned tt, {| fs := fs w; taskNum := taskNum w + 1;
                             taskStack := taskStack w; trace := trace w |})) ;;;
  let* subtasks := makeTaskSubtasks answer mainTask in
  ret subtasks.

(** ** The scheduling assistant (scheduler.ts, lines 480-581)

    The second program of the file keeps its own, simpler store functions:
    no [try]/[catch] around the read, no directory creation, no default
    extension.  Its tasks are of type [any]: a JSON value here. *)

Module Assistant.

(** lines 502-505 *)
Definition readWorkFile (fileName : string) : M string :=
  Fs.readFile ("./work/" +:+ fileName).

(** lines 507-509 *)
Definition writeWorkFile (fileName content : string) : M unit :=
  Fs.writeFile ("./work/" +:+ fileName) content.

(** lines 511-513 *)
Definition deleteWorkFile (fileName : string) : M unit :=
  FsDir.unlink ("./work/" +:+ fileName).

(** lines 515-518 *)
Definition readTasks : M JSON.value :=
  let* tasks := readWorkFile "tasks.json" in
  match JSON.parse tasks with
  | Some v => ret v
  | None => throw SyntaxError
  end.

(** lines 520-522 *)
Definition writeTasks (tasks : JSON.value) : M unit :=
  writeWorkFile "tasks.json" (JSONPrint.stringify tasks).

End Assistant.

(** ** Notions for the further properties *)

(** [w'] has everything [w] has: no path has gone, the counter has not
    gone down, the stack and the trace have only grown at their ends. *)
Definition extends (w w' : World) : Prop :=
  (forall p, is_Some (fs w !! p) -> is_Some (fs w' !! p)) /\
  taskNum w <= taskNum w' /\
  taskStack w `prefix_of` taskStack w' /\
  trace w `prefix_of` trace w'.

(** A computation that never takes anything away, whatever its outcome. *)
Definition monotone {A} (m : M A) : Prop :=
  forall w r w', m w = (r, w') -> extends w w'.

(** The children planned from the items of a response when the counter
    stands at [n]. *)
Fixpoint planned_from (task : Task) (n : Z) (items : list SubtaskItem) : list Task :=
  match items with
  | [] => []
  | item :: items' =>
      {| id := n + 1; parentId := id task;
         description := subtask item;
         priority := item_priority item;
         work_ledger := [];
         requirements_for_success := item_requirements_for_success item;
         completed := false |} :: planned_from task (n + 1) items'
  end.

(** A value JavaScript holds as it is written and [JSON.stringify] prints as
    it is held: its numbers are integers of at most 2^53 in size. *)
Fixpoint representable (v : JSON.value) : bool :=
  match v with
  | JSON.Number z => Z.abs z <=? 9007199254740992
  | JSON.Real _ => false
  | JSON.Array vs => forallb representable vs
  | JSON.Object fields => forallb (fun f => representable (snd f)) fields
  | _ => true
  end.


(** More concrete inputs. *)
Module Ex2.

Definition item (s : string) (p : Priority) : SubtaskItem :=
  {| subtask := s; item_priority := p; item_requirements_for_success := "Done" |}.


(** Services whose classifier call fails. *)
Definition classifier_down : Services :=
  {| classifier := fun _ _ _ => Thrown (ServiceError "classifier unreachable");
     relevantFiles := fun _ _ _ => Returned [];
     saveLocation := fun _ _ _ => Returned {| path := "notes/plan"; save_reason := None |};
     generator := fun _ _ _ _ => Returned None;
     evaluator := fun _ _ _ => Returned {| status := defer; reason := None |} |}.

(** Services that execute with success and whose evaluator call fails. *)
Definition evaluator_down : Services :=
  {| classifier := fun _ _ _ => Returned (Some (executePromptT "Write the outline"));
     relevantFiles := fun _ _ _ => Returned ["tasks.json"; "missing.md"];
     saveLocation := fun _ _ _ => Returned {| path := "notes/plan"; save_reason := None |};
     generator := fun _ _ _ _ => Returned (Some Ex.outline);
     evaluator := fun _ _ _ => Thrown (ServiceError "evaluator unreachable") |}.

End Ex2.

(** * Properties *)

(** ** The stable sort *)

Section Sort.
Context {A : Type} (cmp : A -> A -> Z).

Lemma insert_perm (x : A) (l : list A) : JS.insert cmp x l ≡ₚ x :: l.
Proof.
  induction l as [|y l IH]; simpl; [done|].
  destruct (cmp x y <=? 0); [done|].
  rewrite IH. apply Permutation_swap.
Qed.

Lemma sort_perm (l : list A) : JS.sort cmp l ≡ₚ l.
Proof.
  induction l as [|x l IH]; simpl; [done|].
  unfold JS.sort in *. simpl. rewrite insert_perm. by rewrite IH.
Qed.

End Sort.

Lemma compareTaskPriority_rank (a b : Task) :
  compareTaskPriority a b = rank (priority a) - rank (priority b).
Proof. unfold compareTaskPriority. by destruct (priority a), (priority b). Qed.

Lemma insert_ascending (x : Task) (l : list Task) :
  ascending l -> ascending (JS.insert compareTaskPriority x l).
Proof.
  unfold ascending. induction 1 as [|y l Hl IH Hy]; simpl.
  - repeat constructor.
  - rewrite compareTaskPriority_rank.
    destruct (Z.leb_spec (rank (priority x) - rank (priority y)) 0) as [Hle|Hgt].
    + constructor; [by constructor|].
      constructor; [lia|].
      eapply Forall_impl; [exact Hy|]. simpl. intros z Hz. lia.
    + constructor; [exact IH|].
      rewrite (insert_perm compareTaskPriority x l).
      constructor; [lia | exact Hy].
Qed.

Lemma sort_ascending (l : list Task) : ascending (JS.sort compareTaskPriority l).
Proof.
  induction l as [|x l IH]; [constructor|].
  apply insert_ascending, IH.
Qed.

Lemma insert_filter_priority (p : Priority) (x : Task) (l : list Task) :
  filter (fun t => priority t = p) (JS.insert compareTaskPriority x l)
  = filter (fun t => priority t = p) (x :: l).
Proof.
  induction l as [|y l IH]; simpl; [done|].
  rewrite compareTaskPriority_rank.
  destruct (Z.leb_spec (rank (priority x) - rank (priority y)) 0) as [Hle|Hgt]; [done|].
  rewrite !filter_cons in *.
  destruct (decide (priority y = p)) as [Hy|Hy], (decide (priority x = p)) as [Hx|Hx];
    try (rewrite IH; done).
  exfalso. rewrite Hx, Hy in Hgt. lia.
Qed.

Lemma sort_stable (p : Priority) (l : list Task) :
  filter (fun t => priority t = p) (JS.sort compareTaskPriority l)
  = filter (fun t => priority t = p) l.
Proof.
  induction l as [|x l IH]; [done|].
  change (JS.sort compareTaskPriority (x :: l))
    with (JS.insert compareTaskPriority x (JS.sort compareTaskPriority l)).
  rewrite insert_filter_priority, !filter_cons, IH. done.
Qed.

(** ** Reading the store *)

Lemma readWorkFile_eq (fileName : string) (w : World) :
  readWorkFile fileName w = (Returned (file_at w ("./work/" +:+ fileName)), w).
Proof.
  unfold readWorkFile, Fs.readFile, file_at, file_in.
  destruct (fs w !! _) as [[text|]|]; [done|by destruct (Fs.is_directory _ _)..].
Qed.

Lemma readTasks_eq (w : World) :
  readTasks w =
  match store_text w with
  | None | Some EmptyString => (Returned [], w)
  | Some text => JSON_parse_tasks text w
  end.
Proof.
  unfold readTasks, bind. rewrite readWorkFile_eq.
  change (file_at w ("./work/" +:+ "tasks.json")) with (store_text w).
  destruct (store_text w) as [[|c s]|]; done.
Qed.

Lemma JSON_parse_tasks_world (text : string) (w w' : World) (r : Outcome (list Task)) :
  JSON_parse_tasks text w = (r, w') -> w' = w.
Proof.
  unfold JSON_parse_tasks, throw, ret.
  destruct (JSON.parse text) as [v|]; [destruct (TaskJSON.decode_tasks v)|]; congruence.
Qed.

(** Reading the store leaves the world as it is. *)
Lemma readTasks_world (w w' : World) (r : Outcome (list Task)) :
  readTasks w = (r, w') -> w' = w.
Proof.
  rewrite readTasks_eq.
  destruct (store_text w) as [[|c s]|]; try congruence.
  apply JSON_parse_tasks_world.
Qed.

Lemma readTasks_run (w : World) (cur : list Task) :
  fst (readTasks w) = Returned cur -> readTasks w = (Returned cur, w).
Proof.
  intros H. destruct (readTasks w) as [r w'] eqn:E.
  pose proof (readTasks_world _ _ _ E) as ->. simpl in H. by subst.
Qed.

(** What a read returns depends on the text of the store alone. *)
Lemma readTasks_store_text (w1 w2 : World) :
  store_text w1 = store_text w2 -> fst (readTasks w1) = fst (readTasks w2).
Proof.
  intros H. rewrite !readTasks_eq, H.
  destruct (store_text w2) as [[|c s]|]; try done.
  unfold JSON_parse_tasks, throw, ret.
  destruct (JSON.parse _) as [v|]; [destruct (TaskJSON.decode_tasks v)|]; done.
Qed.

(** ** Candidate selection *)

Lemma getTaskList_eq (stack : list Z) (tasks : list Task) (w w' : World) :
  readTasks w = (Returned tasks, w') ->
  getTaskList stack w
  = (Returned (JS.sort compareTaskPriority (candidates stack tasks)), w').
Proof.
  intros Hread. unfold getTaskList, bind. rewrite Hread. unfold ret, candidates.
  destruct stack as [|z stack]; simpl (0 <? _)%nat; cbv iota.
  - do 3 f_equal. apply list_filter_iff. intuition congruence.
  - rewrite list_filter_filter. do 3 f_equal. apply list_filter_iff. intuition congruence.
Qed.

(** C1: for every stack and every stored collection, [getTaskList] returns
    exactly the incomplete tasks whose parent is the top of the stack when
    the stack is non-empty, and exactly the incomplete tasks when it is
    empty (as a permutation of them, hence with the same members); a
    completed task is never returned. *)
Theorem getTaskList_selects (stack : list Z) (tasks : list Task) (w w' : World) :
  readTasks w = (Returned tasks, w') ->
  exists result,
    getTaskList stack w = (Returned result, w') /\
    result ≡ₚ candidates stack tasks /\
    (forall t, t ∈ result <->
               t ∈ tasks /\ completed t = false /\
               match last stack with
               | Some top => parentId t = top
               | None => True
               end) /\
    (forall t, completed t = true -> t ∉ result).
Proof.
  intros Hread. eexists. split; [by apply getTaskList_eq|].
  pose proof (sort_perm compareTaskPriority (candidates stack tasks)) as Hperm.
  split; [exact Hperm|].
  assert (Hmem : forall t, t ∈ JS.sort compareTaskPriority (candidates stack tasks) <->
            t ∈ tasks /\ completed t = false /\
            match last stack with Some top => parentId t = top | None => True end).
  { intros t. rewrite Hperm. unfold candidates. rewrite list_elem_of_filter.
    destruct stack as [|z stack _] using rev_ind.
    - simpl. intuition congruence.
    - rewrite last_snoc. split.
      + intros [[Hc [Hs|Hs]] Hin]; [by destruct stack|]. intuition congruence.
      + intros (Hin & Hc & Hp). subst. auto. }
  split; [exact Hmem|].
  intros t Hc Hin. apply Hmem in Hin as (_ & Hc' & _). congruence.
Qed.

Lemma getTaskList_selects_witness :
  readTasks (Ex.stored [Ex.root; Ex.child 2 low false; Ex.child 3 high true])
  = (Returned [Ex.root; Ex.child 2 low false; Ex.child 3 high true],
     Ex.stored [Ex.root; Ex.child 2 low false; Ex.child 3 high true]) /\
  exists result,
    getTaskList [1] (Ex.stored [Ex.root; Ex.child 2 low false; Ex.child 3 high true])
    = (Returned result, Ex.stored [Ex.root; Ex.child 2 low false; Ex.child 3 high true]) /\
    result ≡ₚ [Ex.child 2 low false].
Proof.
  split; [vm_compute; reflexivity|].
  destruct (getTaskList_selects [1]
              [Ex.root; Ex.child 2 low false; Ex.child 3 high true]
              (Ex.stored [Ex.root; Ex.child 2 low false; Ex.child 3 high true])
              (Ex.stored [Ex.root; Ex.child 2 low false; Ex.child 3 high true]))
    as (result & Hrun & Hperm & _).
  - vm_compute; reflexivity.
  - exists result. split; [exact Hrun|]. exact Hperm.
Defined.

(** The claim C2 as stated fails: with candidates of priorities low, high,
    medium in the store, [getTaskList] answers low, medium, high, which is
    not ordered high first. *)
Lemma getTaskList_not_descending :
  exists result,
    getTaskList [] (Ex.stored Ex.low_high_medium)
    = (Returned result, Ex.stored Ex.low_high_medium) /\
    map priority (candidates [] Ex.low_high_medium) = [low; high; medium] /\
    map priority result = [low; medium; high] /\
    ~ descending result.
Proof.
  eexists. split; [vm_compute; reflexivity|].
  split; [reflexivity|]. split; [reflexivity|].
  intros Hd. inversion Hd as [|a l _ Hall]; subst.
  apply Forall_cons in Hall as [Hlt _]. vm_compute in Hlt. by apply Hlt.
Qed.

(** C2 (amended): [getTaskList] orders the candidates by priority ascending,
    every low before every medium and every medium before every high; tasks
    of one priority keep the order they have in the store. *)
Theorem getTaskList_ascending_stable (stack : list Z) (tasks : list Task) (w w' : World) :
  readTasks w = (Returned tasks, w') ->
  exists result,
    getTaskList stack w = (Returned result, w') /\
    ascending result /\
    (forall p, filter (fun t => priority t = p) result
               = filter (fun t => priority t = p) (candidates stack tasks)).
Proof.
  intros Hread. eexists. split; [by apply getTaskList_eq|].
  split; [apply sort_ascending|].
  intros p. apply sort_stable.
Qed.

Lemma getTaskList_ascending_stable_witness :
  readTasks (Ex.stored Ex.low_high_medium)
  = (Returned Ex.low_high_medium, Ex.stored Ex.low_high_medium) /\
  exists result,
    getTaskList [1] (Ex.stored Ex.low_high_medium)
    = (Returned result, Ex.stored Ex.low_high_medium) /\
    ascending result.
Proof.
  split; [vm_compute; reflexivity|].
  destruct (getTaskList_ascending_stable [1] Ex.low_high_medium
              (Ex.stored Ex.low_high_medium) (Ex.stored Ex.low_high_medium))
    as (result & Hrun & Hasc & _).
  - vm_compute; reflexivity.
  - exists result. split; [exact Hrun | exact Hasc].
Defined.

(** ** Strings and paths *)

Lemma append_nil (k : string) : EmptyString +:+ k = k.
Proof. reflexivity. Qed.

Lemma append_cons (a : ascii) (s k : string) : String a s +:+ k = String a (s +:+ k).
Proof. reflexivity. Qed.

Lemma append_empty_r (s : string) : s +:+ EmptyString = s.
Proof. induction s as [|a s IH]; [done|]. rewrite append_cons. by rewrite IH. Qed.

Lemma append_assoc (a b c : string) : (a +:+ b) +:+ c = a +:+ (b +:+ c).
Proof.
  induction a as [|x a IH]; [done|]. rewrite !append_cons. by rewrite IH.
Qed.

Lemma append_self (s t : string) : s +:+ t = s -> t = EmptyString.
Proof.
  induction s as [|a s IH]; [done|].
  rewrite append_cons. intros [= H]. by apply IH.
Qed.

Lemma starts_with_app (pre s : string) :
  Fs.starts_with pre s = true <-> exists r, s = pre +:+ r.
Proof.
  revert s. induction pre as [|a pre IH]; intros s.
  - split; [intros _; by exists s | done].
  - destruct s as [|b s]; simpl.
    + split; [done | intros [r [=]]].
    + rewrite andb_true_iff, IH. split.
      * intros [Hab [r ->]]. apply Ascii.eqb_eq in Hab as ->. by exists r.
      * intros [r [= -> ->]]. split; [apply Ascii.eqb_refl | by exists r].
Qed.

Lemma strip_prefix_Some (pre s r : string) :
  Fs.strip_prefix pre s = Some r <-> s = pre +:+ r /\ r <> EmptyString.
Proof.
  revert s. induction pre as [|a pre IH]; intros s.
  - rewrite append_nil. destruct s as [|b s]; simpl.
    + split; [done|]. intros [<- H]. done.
    + split; [intros [= <-]; done | intros [<- _]; done].
  - rewrite append_cons. destruct s as [|b s]; simpl.
    + split; [done|]. intros [H _]. discriminate.
    + destruct (Ascii.eqb_spec a b) as [->|Hne].
      * rewrite IH. split; intros [H1 H2]; split; try done.
        -- by rewrite H1.
        -- by injection H1.
      * split; [done|]. intros [[= H _] _]. congruence.
Qed.

Lemma split_nonempty (s : string) (sep : ascii) : JS.split s sep <> [].
Proof.
  destruct s as [|a s]; simpl; [done|].
  destruct (Ascii.eqb a sep); [done|]. by destruct (JS.split s sep).
Qed.

(** The segments of a text: all but the last, and the last. *)
Lemma split_snoc (s : string) (sep : ascii) :
  exists l x, JS.split s sep = l ++ [x].
Proof.
  pose proof (split_nonempty s sep) as Hne.
  destruct (JS.split s sep) as [|y l] using rev_ind; [done|]. eauto.
Qed.

Lemma split_without (s : string) (sep : ascii) :
  JS.includes s sep = false -> JS.split s sep = [s].
Proof.
  induction s as [|a s IH]; [done|]. simpl.
  destruct (Ascii.eqb a sep); [done|]. intros H. by rewrite IH.
Qed.

Lemma split_with (s : string) (sep : ascii) (l : list string) (x : string) :
  JS.includes s sep = true -> JS.split s sep = l ++ [x] -> l <> [].
Proof.
  revert l x. induction s as [|a s IH]; intros l x; [done|]. simpl.
  destruct (Ascii.eqb a sep).
  - intros _ H ->. simpl in H. injection H as _ H. by apply split_nonempty in H.
  - intros Hinc H ->. simpl in H.
    destruct (split_snoc s sep) as (l' & x' & E). rewrite E in H.
    destruct l' as [|y l'].
    + by apply (IH [] x').
    + simpl in H. destruct l'; discriminate.
Qed.

(** Text without a separator, put after a text, goes to its last segment. *)
Lemma split_append (s t : string) (sep : ascii) (l : list string) (x : string) :
  JS.includes t sep = false -> JS.split s sep = l ++ [x] ->
  JS.split (s +:+ t) sep = l ++ [x +:+ t].
Proof.
  intros Ht. revert l x. induction s as [|a s IH]; intros l x.
  - rewrite append_nil, (split_without _ _ Ht). simpl.
    destruct l as [|y l]; [by intros [= <-]|]. destruct l; discriminate.
  - rewrite append_cons. simpl.
    destruct (split_snoc s sep) as (l' & x' & E). rewrite (IH _ _ E), E.
    destruct (Ascii.eqb a sep).
    + destruct l as [|y l]; [destruct l'; discriminate|].
      simpl. intros [= <- H]. apply app_inj_tail in H as [-> ->]. reflexivity.
    + destruct l' as [|y' l']; simpl.
      * destruct l as [|y l]; [|destruct l; discriminate]. by intros [= <-].
      * destruct l as [|y l]; [destruct l'; discriminate|].
        simpl. intros [= <- H]. apply app_inj_tail in H as [-> ->]. reflexivity.
Qed.

Lemma join_cons_char (a : ascii) (hd : string) (tl : list string) (sep : string) :
  JS.join (String a hd :: tl) sep = String a (JS.join (hd :: tl) sep).
Proof. destruct tl; reflexivity. Qed.

Lemma join_split (s : string) (c : ascii) :
  JS.join (JS.split s c) (String c EmptyString) = s.
Proof.
  induction s as [|a s IH]; [done|]. simpl JS.split.
  pose proof (split_nonempty s c) as Hne.
  destruct (JS.split s c) as [|hd tl]; [done|].
  destruct (Ascii.eqb_spec a c) as [->|Hac].
  - change (JS.join (EmptyString :: hd :: tl) (String c EmptyString))
      with (String c (JS.join (hd :: tl) (String c EmptyString))).
    by rewrite IH.
  - by rewrite join_cons_char, IH.
Qed.

Lemma join_cons (x y : string) (l : list string) (sep : string) :
  JS.join (x :: y :: l) sep = x +:+ sep +:+ JS.join (y :: l) sep.
Proof. reflexivity. Qed.

Lemma join_app (xs ys : list string) (sep : string) :
  xs <> [] -> ys <> [] ->
  JS.join (xs ++ ys) sep = JS.join xs sep +:+ sep +:+ JS.join ys sep.
Proof.
  intros Hxs Hys. induction xs as [|x xs IH]; [done|].
  destruct xs as [|x' xs].
  - destruct ys as [|y ys]; [done|]. reflexivity.
  - change ((x :: x' :: xs) ++ ys) with (x :: x' :: (xs ++ ys)).
    rewrite !join_cons. change (x' :: xs ++ ys) with ((x' :: xs) ++ ys).
    rewrite IH by done. by rewrite !append_assoc.
Qed.

Lemma join_snoc (xs : list string) (x sep : string) :
  JS.join (xs ++ [x]) sep
  = match xs with
    | [] => x
    | _ :: _ => JS.join xs sep +:+ sep +:+ x
    end.
Proof. destruct xs as [|y xs]; [done|]. by rewrite join_app. Qed.

Lemma ancestors_self (p : string) : p ∈ Fs.ancestors p.
Proof.
  unfold Fs.ancestors. apply list_elem_of_fmap.
  exists (length (JS.split p "/")). split.
  - by rewrite firstn_all, join_split.
  - rewrite list_elem_of_In, <- in_rev, in_seq.
    pose proof (split_nonempty p "/"). destruct (JS.split p "/"); [done|]. simpl. lia.
Qed.

(** A directory above a path is the start of the path, up to a slash. *)
Lemma ancestors_above (p d : string) :
  d ∈ Fs.ancestors p -> d = p \/ exists r, p = d +:+ "/" +:+ r.
Proof.
  unfold Fs.ancestors. intros (n & -> & Hn)%list_elem_of_fmap.
  rewrite list_elem_of_In, <- in_rev, in_seq in Hn.
  destruct (decide (n = length (JS.split p "/"))) as [->|Hlt].
  - left. by rewrite firstn_all, join_split.
  - right. exists (JS.join (drop n (JS.split p "/")) "/").
    rewrite <- join_app.
    + by rewrite take_drop, join_split.
    + intros E. apply (f_equal length) in E. rewrite length_take in E. simpl in E. lia.
    + intros E. apply (f_equal length) in E. rewrite length_drop in E. simpl in E. lia.
Qed.

(** The segments of a path under the working directory. *)
Lemma split_work (f : string) :
  JS.split ("./work/" +:+ f) "/" = "." :: "work" :: JS.split f "/".
Proof.
  change ("./work/" +:+ f)
    with (String "." (String "/" (String "w" (String "o" (String "r" (String "k"
            (String "/" f))))))).
  pose proof (split_nonempty f "/") as Hne.
  simpl. destruct (JS.split f "/"); done.
Qed.

Lemma target_split (f : string) (l : list string) (x : string) :
  JS.split f "/" = l ++ [x] ->
  exists x', JS.split (target f) "/" = "." :: "work" :: l ++ [x'].
Proof.
  intros E. unfold target. rewrite split_work. destruct (JS.includes f ".").
  - exists x. by rewrite E.
  - exists (x +:+ ".md"). by rewrite (split_append f ".md" "/" l x).
Qed.

(** The directory [writeWorkFile] creates is the one its target lies in. *)
Lemma parent_target (f : string) :
  JS.includes f "/" = true -> Fs.parent (target f) = "./work/" +:+ dirPath f.
Proof.
  intros Hinc. destruct (split_snoc f "/") as (l & x & E).
  pose proof (split_with _ _ _ _ Hinc E) as Hl.
  destruct (target_split f l x E) as [x' E'].
  unfold Fs.parent, dirPath, JS.slice_init. rewrite E', E.
  change ("." :: "work" :: l ++ [x']) with (("." :: "work" :: l) ++ [x']).
  rewrite !removelast_last. destruct l as [|y l]; [done|]. reflexivity.
Qed.

Lemma parent_target_top (f : string) :
  JS.includes f "/" = false -> Fs.parent (target f) = "./work".
Proof.
  intros Hinc. destruct (target_split f [] f) as [x' E'].
  { by apply split_without. }
  unfold Fs.parent, JS.slice_init. rewrite E'. reflexivity.
Qed.

(** The target lies below the directory [writeWorkFile] creates. *)
Lemma target_below (f : string) :
  JS.includes f "/" = true -> exists r, target f = ("./work/" +:+ dirPath f) +:+ "/" +:+ r.
Proof.
  intros Hinc. destruct (split_snoc f "/") as (l & x & E).
  pose proof (split_with _ _ _ _ Hinc E) as Hl.
  destruct (target_split f l x E) as [x' E'].
  exists x'. rewrite <- (join_split (target f) "/"), E'.
  unfold dirPath, JS.slice_init. rewrite E, removelast_last.
  change ("." :: "work" :: l ++ [x']) with (("." :: "work" :: l) ++ [x']).
  rewrite join_app by done. destruct l as [|y l]; [done|]. reflexivity.
Qed.

Lemma target_below_ancestors (f d : string) :
  JS.includes f "/" = true -> d ∈ Fs.ancestors ("./work/" +:+ dirPath f) ->
  exists r, target f = d +:+ "/" +:+ r.
Proof.
  intros Hinc Hd. destruct (target_below f Hinc) as [r Hr].
  destruct (ancestors_above _ _ Hd) as [->|[r' Hr']]; [by exists r|].
  exists (r' +:+ "/" +:+ r). rewrite Hr, Hr'. by rewrite !append_assoc.
Qed.

(** ** The file system *)

Lemma has_below_spec (m : gmap string node) (d : string) :
  Fs.has_below m d = true <-> exists r, is_Some (m !! (d +:+ "/" +:+ r)).
Proof.
  unfold Fs.has_below. rewrite existsb_exists. split.
  - intros ([k n] & Hin & Hpre). apply starts_with_app in Hpre as [r Hr].
    simpl in Hr. subst k. exists r. rewrite <- append_assoc.
    apply list_elem_of_In, elem_of_map_to_list in Hin. by eexists.
  - intros [r [n Hn]]. exists (d +:+ "/" +:+ r, n). split.
    + by apply list_elem_of_In, elem_of_map_to_list.
    + apply starts_with_app. exists r. simpl. by rewrite append_assoc.
Qed.

Lemma has_below_insert (m : gmap string node) (d k : string) (n : node) :
  Fs.has_below m d = true -> Fs.has_below (<[k := n]> m) d = true.
Proof.
  rewrite !has_below_spec. intros [r Hr]. exists r.
  rewrite lookup_insert_is_Some'. by right.
Qed.

Lemma is_directory_insert_dir (m : gmap string node) (d k : string) :
  m !! k = None -> Fs.is_directory m d = true -> Fs.is_directory (<[k := Dir]> m) d = true.
Proof.
  intros Hk. unfold Fs.is_directory. destruct (decide (k = d)) as [->|Hne].
  - by rewrite lookup_insert_eq.
  - rewrite lookup_insert_ne by done. destruct (m !! d) as [[text|]|]; try done.
    apply has_below_insert.
Qed.

Lemma is_directory_insert_file (m : gmap string node) (d k content : string) :
  k <> d -> Fs.is_directory m d = true ->
  Fs.is_directory (<[k := File content]> m) d = true.
Proof.
  intros Hne. unfold Fs.is_directory. rewrite lookup_insert_ne by done.
  destruct (m !! d) as [[text|]|]; try done. apply has_below_insert.
Qed.

(** Where a path is a directory, an entry lies at it or below it. *)
Lemma is_directory_entry (m : gmap string node) (d : string) :
  Fs.is_directory m d = true -> exists rest, is_Some (m !! (d +:+ rest)).
Proof.
  unfold Fs.is_directory. destruct (m !! d) as [[text|]|] eqn:E; [done| |].
  - intros _. exists EmptyString. rewrite append_empty_r, E. eauto.
  - intros [r Hr]%has_below_spec. by exists ("/" +:+ r).
Qed.

Lemma is_directory_not_file (m : gmap string node) (d : string) :
  Fs.is_directory m d = true -> Fs.is_file m d = false.
Proof. unfold Fs.is_directory, Fs.is_file. by destruct (m !! d) as [[text|]|]. Qed.

(** A step of [mkdir] adds a directory at a path that held nothing, or
    does nothing. *)
Lemma ensure_dir_cases (d : string) (m : gmap string node) :
  Fs.ensure_dir d m = m \/ (m !! d = None /\ Fs.ensure_dir d m = <[d := Dir]> m).
Proof.
  unfold Fs.ensure_dir. destruct (m !! d); [by left|].
  destruct (Fs.has_below m d); [by left | by right].
Qed.

Lemma ensure_dir_file (d p : string) (m : gmap string node) :
  file_in (Fs.ensure_dir d m) p = file_in m p.
Proof.
  destruct (ensure_dir_cases d m) as [->|[E ->]]; [done|]. unfold file_in.
  destruct (decide (d = p)) as [->|Hne].
  - by rewrite lookup_insert_eq, E.
  - by rewrite lookup_insert_ne.
Qed.

Lemma ensure_dirs_file (ds : list string) (p : string) (m : gmap string node) :
  file_in (foldr Fs.ensure_dir m ds) p = file_in m p.
Proof.
  induction ds as [|d ds IH]; simpl; [done|]. by rewrite ensure_dir_file.
Qed.

Lemma is_file_file_in (m : gmap string node) (p : string) :
  Fs.is_file m p = match file_in m p with Some _ => true | None => false end.
Proof. unfold Fs.is_file, file_in. by destruct (m !! p) as [[text|]|]. Qed.

Lemma ensure_dir_keeps (d p : string) (m : gmap string node) :
  is_Some (m !! p) -> is_Some (Fs.ensure_dir d m !! p).
Proof.
  destruct (ensure_dir_cases d m) as [->|[E ->]]; [done|].
  intros H. rewrite lookup_insert_is_Some'. by right.
Qed.

Lemma ensure_dirs_keeps (ds : list string) (p : string) (m : gmap string node) :
  is_Some (m !! p) -> is_Some (foldr Fs.ensure_dir m ds !! p).
Proof. induction ds as [|d ds IH]; simpl; [done|]. intros H. by apply ensure_dir_keeps, IH. Qed.

(** Nothing is made where every directory exists already. *)
Lemma ensure_dirs_same (ds : list string) (m : gmap string node) :
  Forall (fun d => is_Some (m !! d) \/ Fs.has_below m d = true) ds ->
  foldr Fs.ensure_dir m ds = m.
Proof.
  induction 1 as [|d ds Hd _ IH]; simpl; [done|].
  rewrite IH. unfold Fs.ensure_dir. destruct Hd as [[n ->]|Hd]; [done|].
  rewrite Hd. by destruct (m !! d).
Qed.

(** What is found after [mkdir] at a path it did not make was there before. *)
Lemma ensure_dirs_lookup (ds : list string) (p : string) (m : gmap string node) :
  p ∉ ds -> foldr Fs.ensure_dir m ds !! p = m !! p.
Proof.
  induction ds as [|d ds IH]; simpl; [done|].
  intros [Hne Hp]%not_elem_of_cons.
  destruct (ensure_dir_cases d (foldr Fs.ensure_dir m ds)) as [->|[_ ->]]; [by apply IH|].
  rewrite lookup_insert_ne by done. by apply IH.
Qed.

Lemma ensure_dir_directory (d p : string) (m : gmap string node) :
  Fs.is_directory m p = true -> Fs.is_directory (Fs.ensure_dir d m) p = true.
Proof.
  destruct (ensure_dir_cases d m) as [->|[E ->]]; [done|]. by apply is_directory_insert_dir.
Qed.

Lemma ensure_dir_made (d : string) (m : gmap string node) :
  Fs.is_file m d = false -> Fs.is_directory (Fs.ensure_dir d m) d = true.
Proof.
  unfold Fs.is_file, Fs.ensure_dir, Fs.is_directory.
  destruct (m !! d) as [[text|]|] eqn:E; [done | by rewrite E |].
  intros _. destruct (Fs.has_below m d) eqn:Hb.
  - by rewrite E.
  - by rewrite lookup_insert_eq.
Qed.

(** After [mkdir], every directory on the way is one. *)
Lemma ensure_dirs_made (ds : list string) (d : string) (m : gmap string node) :
  existsb (Fs.is_file m) ds = false -> d ∈ ds ->
  Fs.is_directory (foldr Fs.ensure_dir m ds) d = true.
Proof.
  induction ds as [|d' ds IH]; simpl; [by intros _ ?%elem_of_nil|].
  intros [Hd' Hds]%orb_false_elim [->|Hin]%elem_of_cons.
  - apply ensure_dir_made. by rewrite is_file_file_in, ensure_dirs_file, <- is_file_file_in.
  - by apply ensure_dir_directory, IH.
Qed.

(** ** Writing files *)

Lemma set_fs_same (w : World) (f : gmap string node -> gmap string node) :
  f (fs w) = fs w -> set_fs f w = w.
Proof. intros H. destruct w. unfold set_fs. simpl in *. by rewrite H. Qed.

Lemma writeWorkFile_target_eq (fileName : string) :
  "./work/" +:+ (if negb (JS.includes fileName ".") then fileName +:+ ".md" else fileName)
  = target fileName.
Proof. unfold target. by destruct (JS.includes fileName "."). Qed.

(** [mkdir] makes nothing on the way to a path at or below which an entry
    lies already. *)
Lemma ensure_dirs_below (ds : list string) (t rest : string) (m : gmap string node) :
  (forall d, d ∈ ds -> exists r, t = d +:+ "/" +:+ r) ->
  is_Some (foldr Fs.ensure_dir m ds !! (t +:+ rest)) ->
  foldr Fs.ensure_dir m ds = m.
Proof.
  intros Hds Hk.
  assert (Hnot : t +:+ rest ∉ ds).
  { intros Hin. destruct (Hds _ Hin) as [r Hr].
    rewrite append_assoc in Hr. symmetry in Hr. apply append_self in Hr.
    by destruct rest. }
  rewrite ensure_dirs_lookup in Hk by done.
  apply ensure_dirs_same, Forall_forall. intros d Hd. right.
  destruct (Hds _ Hd) as [r Hr]. apply has_below_spec. exists (r +:+ rest).
  replace (d +:+ "/" +:+ r +:+ rest) with (t +:+ rest); [exact Hk|].
  rewrite Hr. by rewrite !append_assoc.
Qed.

(** [writeWorkFile] either throws and leaves the world as it was, or
    returns with the directories made and the file written. *)
Lemma writeWorkFile_outcome (fileName content : string) (w : World) :
  (exists e, writeWorkFile fileName content w = (Thrown e, w)) \/
  writeWorkFile fileName content w = (Returned tt, set_fs (written_fs fileName content) w).
Proof.
  unfold writeWorkFile, bind, written_fs. rewrite writeWorkFile_target_eq.
  destruct (JS.includes fileName "/") eqn:Hinc.
  - unfold Fs.mkdir_recursive. fold (dirPath fileName).
    set (ds := Fs.ancestors ("./work/" +:+ dirPath fileName)).
    destruct (Fs.is_file (fs w) _); [left; eauto|].
    destruct (existsb _ ds) eqn:Hfiles; [left; eauto|].
    unfold Fs.writeFile. cbn [fs set_fs].
    destruct (Fs.is_directory (foldr Fs.ensure_dir (fs w) ds) (target fileName)) eqn:Hdir.
    + left. exists EISDIR. f_equal. apply set_fs_same.
      destruct (is_directory_entry _ _ Hdir) as [rest Hrest].
      apply (ensure_dirs_below ds (target fileName) rest); [|exact Hrest].
      intros d Hd. by apply target_below_ancestors.
    + rewrite (parent_target _ Hinc).
      rewrite (ensure_dirs_made ds _ (fs w) Hfiles (ancestors_self _)).
      right. by destruct (foldr Fs.ensure_dir (fs w) ds !! target fileName).
  - unfold ret, Fs.writeFile.
    destruct (Fs.is_directory (fs w) (target fileName)); [left; eauto|].
    destruct (fs w !! target fileName); [by right|].
    destruct (Fs.is_directory (fs w) _); [by right | left; eauto].
Qed.

Lemma writeWorkFile_throws (fileName content : string) (e : Exn) (w w' : World) :
  writeWorkFile fileName content w = (Thrown e, w') -> w' = w.
Proof.
  destruct (writeWorkFile_outcome fileName content w) as [[e' ->]| ->]; congruence.
Qed.

Lemma target_not_ancestor (fileName : string) :
  JS.includes fileName "/" = true ->
  target fileName ∉ Fs.ancestors ("./work/" +:+ dirPath fileName).
Proof.
  intros Hinc Hin. destruct (target_below_ancestors _ _ Hinc Hin) as [r Hr].
  symmetry in Hr. apply append_self in Hr. discriminate.
Qed.

(** [mkdir] leaves a path that is no directory and lies below the ones it
    makes as it is. *)
Lemma ensure_dirs_no_directory (fileName : string) (m : gmap string node) :
  JS.includes fileName "/" = true ->
  Fs.is_directory m (target fileName) = false ->
  Fs.is_directory (foldr Fs.ensure_dir m (Fs.ancestors ("./work/" +:+ dirPath fileName)))
                  (target fileName) = false.
Proof.
  intros Hinc Hno.
  destruct (Fs.is_directory (foldr Fs.ensure_dir m _) (target fileName)) eqn:Hdir; [|done].
  destruct (is_directory_entry _ _ Hdir) as [rest Hrest].
  rewrite (ensure_dirs_below _ (target fileName) rest) in Hdir; [congruence| |exact Hrest].
  intros d Hd. by apply target_below_ancestors.
Qed.

(** The write succeeds where [writable] says it can. *)
Lemma writeWorkFile_run (fileName content : string) (w : World) :
  writable w fileName ->
  writeWorkFile fileName content w
  = (Returned tt, set_fs (written_fs fileName content) w).
Proof.
  intros [Hdirs Hfile].
  unfold writeWorkFile, bind, written_fs. rewrite writeWorkFile_target_eq.
  destruct (JS.includes fileName "/") eqn:Hinc.
  - unfold Fs.mkdir_recursive. fold (dirPath fileName).
    assert (Hself : Fs.is_file (fs w) ("./work/" +:+ dirPath fileName) = false).
    { destruct (Fs.is_file _ _) eqn:E; [|done].
      etrans; [|exact Hdirs]. symmetry. apply existsb_exists. eexists. split; [|exact E].
      apply list_elem_of_In, ancestors_self. }
    rewrite Hself, Hdirs. unfold Fs.writeFile. cbn [fs set_fs].
    rewrite (ensure_dirs_no_directory _ _ Hinc Hfile).
    rewrite (parent_target _ Hinc).
    rewrite (ensure_dirs_made _ _ (fs w) Hdirs (ancestors_self _)).
    by destruct (foldr Fs.ensure_dir (fs w) _ !! target fileName).
  - unfold ret, Fs.writeFile. rewrite Hfile, (parent_target_top _ Hinc), Hdirs.
    by destruct (fs w !! target fileName).
Qed.

Lemma written_fs_target (fileName content : string) (m : gmap string node) :
  file_in (written_fs fileName content m) (target fileName) = Some content.
Proof. unfold written_fs, file_in. by rewrite lookup_insert_eq. Qed.

Lemma written_fs_others (fileName content p : string) (m : gmap string node) :
  p <> target fileName -> file_in (written_fs fileName content m) p = file_in m p.
Proof.
  intros Hp. unfold written_fs, file_in at 1. rewrite lookup_insert_ne by congruence.
  destruct (JS.includes fileName "/"); [apply ensure_dirs_file | done].
Qed.

Lemma written_fs_keeps (fileName content p : string) (m : gmap string node) :
  is_Some (m !! p) -> is_Some (written_fs fileName content m !! p).
Proof.
  intros Hp. unfold written_fs. rewrite lookup_insert_is_Some'. right.
  destruct (JS.includes fileName "/"); [by apply ensure_dirs_keeps | done].
Qed.

(** ** Computations that leave the state alone *)

Lemma same_state_refl (w : World) : same_state w w.
Proof. by unfold same_state. Qed.

Lemma same_state_trans (w1 w2 w3 : World) :
  same_state w1 w2 -> same_state w2 w3 -> same_state w1 w3.
Proof. unfold same_state. intros (?&?&?) (?&?&?). repeat split; congruence. Qed.

Lemma same_state_store_text (w w' : World) : same_state w w' -> store_text w' = store_text w.
Proof. intros (Hfs & _). unfold store_text, file_at. by rewrite Hfs. Qed.

Lemma same_state_readTasks (w w' : World) :
  same_state w w' -> fst (readTasks w') = fst (readTasks w).
Proof. intros H. by apply readTasks_store_text, same_state_store_text. Qed.

Lemma read_only_ret {A} (a : A) : read_only (ret a).
Proof. intros w r w' [= _ <-]. apply same_state_refl. Qed.

Lemma read_only_throw {A} (e : Exn) : read_only (@throw A e).
Proof. intros w r w' [= _ <-]. apply same_state_refl. Qed.

Lemma read_only_ask {A} (req : Request) (answer : nat -> Outcome A) : read_only (ask req answer).
Proof. intros w r w' [= _ <-]. by unfold same_state. Qed.

Lemma read_only_bind {A B} (m : M A) (f : A -> M B) :
  read_only m -> (forall a, read_only (f a)) -> read_only (bind m f).
Proof.
  intros Hm Hf w r w'. unfold bind.
  destruct (m w) as [[a|e] w1] eqn:Em; intros Hrun.
  - eapply same_state_trans; [eapply Hm, Em | eapply Hf, Hrun].
  - injection Hrun as _ <-. eapply Hm, Em.
Qed.

Lemma read_only_on_throw_bind {A B} (m : M A) (f : A -> M B) :
  read_only m -> (forall a, read_only_on_throw (f a)) -> read_only_on_throw (bind m f).
Proof.
  intros Hm Hf w e w'. unfold bind.
  destruct (m w) as [[a|e0] w1] eqn:Em; intros Hrun.
  - eapply same_state_trans; [eapply Hm, Em | eapply Hf, Hrun].
  - injection Hrun as _ <-. eapply Hm, Em.
Qed.

Lemma read_only_mapM {A B} (f : A -> M B) (xs : list A) :
  (forall a, read_only (f a)) -> read_only (mapM f xs).
Proof.
  intros Hf. induction xs as [|x xs IH]; simpl.
  - apply read_only_ret.
  - apply read_only_bind; [apply Hf|]. intros y.
    apply read_only_bind; [apply IH|]. intros ys. apply read_only_ret.
Qed.

Lemma read_only_readWorkFile (fileName : string) : read_only (readWorkFile fileName).
Proof. intros w r w'. rewrite readWorkFile_eq. intros [= _ <-]. apply same_state_refl. Qed.

Lemma readWorkDirTree_world (w w' : World) (r : Outcome (list string)) :
  readWorkDirTree w = (r, w') -> w' = w.
Proof.
  unfold readWorkDirTree, bind, Fs.readdir_recursive, ret.
  destruct (Fs.is_directory (fs w) "./work"); [|destruct (Fs.is_file (fs w) "./work")];
    by intros [= _ <-].
Qed.

Lemma read_only_readWorkDirTree : read_only readWorkDirTree.
Proof. intros w r w' H. apply readWorkDirTree_world in H as ->. apply same_state_refl. Qed.

Lemma read_only_readTasks : read_only readTasks.
Proof. intros w r w' H. apply readTasks_world in H as ->. apply same_state_refl. Qed.

Section Services.
Variable svc : Services.

Lemma read_only_preProcessTask (task : Task) : read_only (preProcessTask svc task).
Proof.
  apply read_only_bind; [apply read_only_ask|].
  intros [o|]; [apply read_only_ret | apply read_only_throw].
Qed.

Lemma read_only_postProcessTask (task : Task) : read_only (postProcessTask svc task).
Proof. apply read_only_ask. Qed.

Lemma read_only_getContext (prompt : string) : read_only (getContext svc prompt).
Proof.
  apply read_only_bind; [apply read_only_readWorkDirTree|]. intros dirTree.
  apply read_only_bind; [apply read_only_ask|]. intros relevant.
  apply read_only_bind; [|intros; apply read_only_ret].
  apply read_only_mapM. intros file.
  apply read_only_bind; [apply read_only_readWorkFile|]. intros; apply read_only_ret.
Qed.

Lemma read_only_getTaskSaveLocation (prompt : string) :
  read_only (getTaskSaveLocation svc prompt).
Proof.
  apply read_only_bind; [apply read_only_readWorkDirTree|]. intros; apply read_only_ask.
Qed.

(** [executePrompt] writes last, and a write that fails changes nothing:
    when [executePrompt] throws it has written nothing. *)
Lemma executePrompt_read_only_on_throw (prompt workSummary : string) :
  read_only_on_throw (executePrompt svc prompt workSummary).
Proof.
  apply read_only_on_throw_bind; [apply read_only_getContext|]. intros context.
  apply read_only_on_throw_bind; [apply read_only_getTaskSaveLocation|]. intros saveLoc.
  apply read_only_on_throw_bind; [apply read_only_ask|]. intros [out|].
  - intros w e w'. unfold bind.
    destruct (writeWorkFile (path saveLoc) (content out) w) as [[[]|e0] v] eqn:E;
      [discriminate|].
    intros [= _ <-]. apply writeWorkFile_throws in E as ->. apply same_state_refl.
  - intros w e w' H. eapply read_only_throw, H.
Qed.

(** The failure the generation service causes: no parsed output. *)
Lemma executePrompt_no_output (prompt workSummary context : string)
    (saveLoc : SaveLocation) (w w1 w2 : World) :
  getContext svc prompt w = (Returned context, w1) ->
  getTaskSaveLocation svc prompt w1 = (Returned saveLoc, w2) ->
  generator svc (length (trace w2)) context workSummary prompt = Returned None ->
  exists w3, executePrompt svc prompt workSummary w
             = (Thrown (Error "No output from the model"), w3).
Proof.
  intros Hc Hs Hg. unfold executePrompt, bind. rewrite Hc, Hs.
  unfold ask at 1. rewrite Hg. eexists. reflexivity.
Qed.

(** C8: when the classifier answers not-ready, the step changes neither the
    store (nor any file), nor the stack, and directs to advance. *)
Theorem processTask_notReady (task : Task) (w w1 : World)
    (missing : option (list string)) (why : string) :
  preProcessTask svc task w = (Returned (notReady missing why), w1) ->
  processTask svc task w = (Returned {| next := true |}, w1) /\
  fs w1 = fs w /\
  fst (readTasks w1) = fst (readTasks w) /\
  taskStack w1 = taskStack w /\
  taskNum w1 = taskNum w.
Proof.
  intros Hpre.
  pose proof (read_only_preProcessTask task _ _ _ Hpre) as Hsame.
  split; [unfold processTask, bind; by rewrite Hpre|].
  split; [apply Hsame|]. split; [by apply same_state_readTasks|].
  split; apply Hsame.
Qed.

(** C4: when execution fails in the ready-to-execute branch, the step fails
    with it, and the store and every other file are as before: no work entry
    is appended and no completed flag changes. *)
Theorem processTask_execution_failure (task : Task) (prompt : string) (e : Exn)
    (w w1 w2 : World) :
  preProcessTask svc task w = (Returned (executePromptT prompt), w1) ->
  executePrompt svc prompt (workDone task) w1 = (Thrown e, w2) ->
  processTask svc task w = (Thrown e, w2) /\
  fs w2 = fs w /\
  store_text w2 = store_text w /\
  fst (readTasks w2) = fst (readTasks w) /\
  taskStack w2 = taskStack w /\
  taskNum w2 = taskNum w.
Proof.
  intros Hpre Hexec.
  assert (Hsame : same_state w w2).
  { eapply same_state_trans; [eapply read_only_preProcessTask, Hpre|].
    eapply executePrompt_read_only_on_throw, Hexec. }
  split; [unfold processTask, bind; by rewrite Hpre, Hexec|].
  split; [apply Hsame|]. split; [by apply same_state_store_text|].
  split; [by apply same_state_readTasks|]. split; apply Hsame.
Qed.

End Services.

(** ** Where the file is written *)

Lemma includes_split_last (s : string) (sep c : ascii) :
  JS.includes (List.last (JS.split s sep) EmptyString) c = true -> JS.includes s c = true.
Proof.
  induction s as [|a s IH]; simpl; [done|].
  pose proof (split_nonempty s sep) as Hne.
  destruct (JS.split s sep) as [|x xs]; [done|]. clear Hne.
  destruct (Ascii.eqb a sep).
  - intros H. apply IH in H. rewrite H. by destruct (Ascii.eqb a c).
  - destruct xs as [|y ys].
    + simpl in *. destruct (Ascii.eqb a c); [done | exact IH].
    + intros H. apply IH in H. rewrite H. by destruct (Ascii.eqb a c).
Qed.

(** The claim C9 as stated fails: the last segment of [v1.0/notes] has no
    extension, yet the file is written at that very path and nothing is
    written at [v1.0/notes.md]. *)
Lemma writeWorkFile_dot_in_directory :
  has_extension "v1.0/notes" = false /\
  file_at (snd (writeWorkFile "v1.0/notes" "text" Ex.boot)) "./work/v1.0/notes" = Some "text" /\
  file_at (snd (writeWorkFile "v1.0/notes" "text" Ex.boot)) "./work/v1.0/notes.md" = None.
Proof. vm_compute. done. Qed.

(** C9 (amended): for a plain file name, in a state where the write can
    succeed, [writeWorkFile] returns and has written the content at exactly
    the given path when the path has a dot anywhere in it, and at the path
    followed by [.md] when the path has no dot at all; the text of every
    other file is untouched.  In particular a path whose file name has an
    extension is written as given. *)
Theorem writeWorkFile_target (fileName content : string) (w : World) :
  plain fileName = true ->
  writable w fileName ->
  exists w',
    writeWorkFile fileName content w = (Returned tt, w') /\
    file_at w' ("./work/" +:+ (if JS.includes fileName "." then fileName
                               else fileName +:+ ".md")) = Some content /\
    (forall p, p <> "./work/" +:+ (if JS.includes fileName "." then fileName
                                   else fileName +:+ ".md") ->
               file_at w' p = file_at w p) /\
    (has_extension fileName = true ->
     file_at w' ("./work/" +:+ fileName) = Some content) /\
    taskNum w' = taskNum w /\ taskStack w' = taskStack w /\ trace w' = trace w.
Proof.
  intros _ Hcan.
  eexists. split; [by apply writeWorkFile_run|]. fold (target fileName).
  assert (Hat : file_at (set_fs (written_fs fileName content) w) (target fileName)
                = Some content) by apply written_fs_target.
  split; [exact Hat|]. split.
  - intros p Hp. by apply written_fs_others.
  - split; [|done]. intros Hext. unfold has_extension, basename in Hext.
    apply includes_split_last in Hext. unfold target in *. rewrite Hext in *. exact Hat.
Qed.

(** A write that cannot succeed throws and has changed nothing, not even a
    directory: with a file in the way of the directory, with a directory at
    the path to write, and with no working directory to hold a new file. *)
Lemma writeWorkFile_fails (fileName content : string) (w : World) :
  (JS.includes fileName "/" = true /\
   existsb (Fs.is_file (fs w)) (Fs.ancestors ("./work/" +:+ dirPath fileName)) = true) \/
  Fs.is_directory (fs w) (target fileName) = true \/
  (JS.includes fileName "/" = false /\ fs w !! target fileName = None /\
   Fs.is_directory (fs w) "./work" = false) ->
  exists e, writeWorkFile fileName content w = (Thrown e, w).
Proof.
  intros Hcannot.
  destruct (writeWorkFile_outcome fileName content w) as [He|Hrun]; [exact He|].
  exfalso. revert Hrun.
  unfold writeWorkFile, bind. rewrite writeWorkFile_target_eq.
  destruct Hcannot as [[Hinc Hfile]|[Hdir|(Hinc & Hnone & Hwork)]].
  - rewrite Hinc. unfold Fs.mkdir_recursive. fold (dirPath fileName). rewrite Hfile.
    by destruct (Fs.is_file (fs w) _).
  - destruct (JS.includes fileName "/") eqn:Hinc.
    + unfold Fs.mkdir_recursive. fold (dirPath fileName).
      destruct (Fs.is_file (fs w) _); [done|].
      destruct (existsb _ _) eqn:Hfiles; [done|].
      unfold Fs.writeFile. cbn [fs set_fs].
      destruct (is_directory_entry _ _ Hdir) as [rest Hrest].
      rewrite (ensure_dirs_same _ (fs w)), Hdir; [done|].
      apply Forall_forall. intros d Hd. right.
      destruct (target_below_ancestors _ _ Hinc Hd) as [r Hr].
      apply has_below_spec. exists (r +:+ rest).
      replace (d +:+ "/" +:+ r +:+ rest) with (target fileName +:+ rest); [exact Hrest|].
      rewrite Hr. by rewrite !append_assoc.
    + unfold ret, Fs.writeFile. by rewrite Hdir.
  - rewrite Hinc. unfold ret, Fs.writeFile.
    destruct (Fs.is_directory (fs w) (target fileName)); [done|].
    by rewrite Hnone, (parent_target_top _ Hinc), Hwork.
Qed.

(** ** Listing the working directory *)

Lemma readWorkDirTree_no_dot (w : World) (files : list string) :
  fst (readWorkDirTree w) = Returned files ->
  forall item, In item files -> JS.includes item "." = false.
Proof.
  unfold readWorkDirTree, bind, Fs.readdir_recursive, ret.
  destruct (Fs.is_directory (fs w) "./work"); [|by destruct (Fs.is_file (fs w) "./work")].
  intros [= <-] item Hin. apply List.filter_In in Hin as [_ H].
  by destruct (JS.includes item ".").
Qed.

(** C7 fails on the code: after [notes/plan.md] is written, the working
    directory holds the directory [notes] and the file [notes/plan.md];
    the listing answers the directory and leaves the file out. *)
Theorem readWorkDirTree_lists_directory_not_file :
  fs (snd (writeWorkFile "notes/plan.md" "# Plan" Ex.boot)) !! "./work/notes" = Some Dir /\
  file_at (snd (writeWorkFile "notes/plan.md" "# Plan" Ex.boot)) "./work/notes/plan.md"
  = Some "# Plan" /\
  fst (readWorkDirTree (snd (writeWorkFile "notes/plan.md" "# Plan" Ex.boot)))
  = Returned ["notes"].
Proof. vm_compute. done. Qed.

(** ** Reading a missing, empty or broken store *)

(** The claim C6 as stated fails: a store whose text is no JSON makes
    [readTasks] throw the [SyntaxError] of [JSON.parse]. *)
Lemma readTasks_unparsable_throws :
  store_text (Ex.with_store_text "{") = Some "{" /\
  JSON.parse "{" = None /\
  readTasks (Ex.with_store_text "{") = (Thrown SyntaxError, Ex.with_store_text "{").
Proof. vm_compute. done. Qed.

(** C6 (amended): [readTasks] returns the empty collection when the artifact
    is absent and when its text is empty; when the text is not empty and
    [JSON.parse] rejects it, the read throws [SyntaxError]. *)
Theorem readTasks_absent_empty_unparsable (w : World) :
  (store_text w = None \/ store_text w = Some EmptyString ->
   readTasks w = (Returned [], w)) /\
  (forall text, store_text w = Some text -> text <> EmptyString ->
                JSON.parse text = None ->
                readTasks w = (Thrown SyntaxError, w)).
Proof.
  rewrite readTasks_eq. split.
  - intros [-> | ->]; done.
  - intros text -> Hne Hparse. destruct text as [|c s]; [done|].
    unfold JSON_parse_tasks. by rewrite Hparse.
Qed.

Lemma readTasks_absent_empty_unparsable_witness :
  readTasks Ex.boot = (Returned [], Ex.boot) /\
  readTasks (Ex.with_store_text "") = (Returned [], Ex.with_store_text "") /\
  readTasks (Ex.with_store_text "not json")
  = (Thrown SyntaxError, Ex.with_store_text "not json").
Proof.
  split; [|split].
  - apply (readTasks_absent_empty_unparsable Ex.boot). left. reflexivity.
  - apply (readTasks_absent_empty_unparsable (Ex.with_store_text "")). right. reflexivity.
  - apply (readTasks_absent_empty_unparsable (Ex.with_store_text "not json"))
      with (text := "not json"); [reflexivity | discriminate | vm_compute; reflexivity].
Defined.

(** ** JSON round trip *)

Module JSONFacts.
Import JSON JSONPrint JSONSpec.

Lemma prepend_nil o : prepend [] o = o.
Proof. by destruct o. Qed.

Lemma lex_ws (c : ascii) (k : string) :
  is_ws c = true -> lex LIdle (String c k) = lex LIdle k.
Proof.
  intros H. simpl. unfold idle. rewrite H. apply prepend_nil.
Qed.

Lemma lex_spaces (n : nat) (k : string) : lex LIdle (spaces n k) = lex LIdle k.
Proof. induction n as [|n IH]; [done|]. simpl spaces. by rewrite lex_ws. Qed.

Lemma lex_newline (n : nat) (k : string) : lex LIdle (newline n k) = lex LIdle k.
Proof. unfold newline. rewrite lex_ws by done. apply lex_spaces. Qed.

Lemma lex_cons (st : lex_state) (c : ascii) (s : string) :
  lex st (String c s)
  = match step st c with
    | Some (ts, st') => prepend ts (lex st' s)
    | None => None
    end.
Proof. reflexivity. Qed.

Ltac lex_step :=
  rewrite lex_cons;
  match goal with
  | |- context [step ?st ?c] =>
      let r := eval vm_compute in (step st c) in
      change (step st c) with r
  end;
  cbv beta iota; rewrite ?prepend_nil.

Lemma lex_escape_char (c : ascii) (acc k : string) :
  lex (LStr acc) (escape_char c k) = lex (LStr (snoc acc c)) k.
Proof.
  destruct c as [[] [] [] [] [] [] [] []];
    match goal with
    | |- context [escape_char ?c ?k] =>
        let r := eval vm_compute in (escape_char c k) in
        change (escape_char c k) with r
    end;
    repeat lex_step; reflexivity.
Qed.

Lemma snoc_append (acc : string) (c : ascii) (s : string) :
  snoc acc c +:+ s = acc +:+ String c s.
Proof.
  unfold snoc. induction acc as [|a acc IH]; [done|].
  rewrite !append_cons. by rewrite IH.
Qed.

Lemma lex_escape (s acc k : string) (ts : list token) :
  lex LIdle k = Some ts ->
  lex (LStr acc) (escape s (String "034"%char k)) = Some (TStr (acc +:+ s) :: ts).
Proof.
  intros Hk. revert acc. induction s as [|c s IH]; intros acc.
  - simpl escape. lex_step. rewrite Hk, append_empty_r. reflexivity.
  - simpl escape. rewrite lex_escape_char, IH, snoc_append. reflexivity.
Qed.

Lemma lex_print_string (s k : string) (ts : list token) :
  lex LIdle k = Some ts -> lex LIdle (print_string s k) = Some (TStr s :: ts).
Proof.
  intros Hk. unfold print_string. lex_step. by rewrite (lex_escape s EmptyString k ts).
Qed.

(** A number or a name ends where the text ends or a delimiter follows. *)
Lemma lex_close (t : token) (c : ascii) (k : string) (ts : list token) :
  lex LIdle (String c k) = Some ts ->
  match close t c with
  | Some (ts0, st') => prepend ts0 (lex st' k)
  | None => None
  end = Some (t :: ts).
Proof.
  simpl. unfold close. destruct (idle c) as [[ts0 st']|]; [|done].
  destruct (lex st' k); simpl; [|done]. by intros [= <-].
Qed.

Lemma lex_after_int (z : Z) (lit : string) (c : ascii) (k : string) (ts : list token) :
  delimited (String c k) -> lex LIdle (String c k) = Some ts ->
  match after_int z lit c with
  | Some (ts0, st') => prepend ts0 (lex st' k)
  | None => None
  end = Some (TNumber z :: ts).
Proof.
  intros (_ & _ & Hpoint & Hexp) Hk. unfold after_int. rewrite Hpoint, Hexp.
  by apply lex_close.
Qed.

Lemma lex_number_end (neg : bool) (acc : Decimal.uint) (k : string) (ts : list token) :
  delimited k -> lex LIdle k = Some ts ->
  lex (LNum neg acc) k = Some (TNumber (number_of neg acc) :: ts).
Proof.
  destruct k as [|c k].
  - intros _ [= <-]. reflexivity.
  - intros Hdel Hk. rewrite lex_cons. cbn [step]. rewrite (proj1 Hdel).
    by apply lex_after_int.
Qed.

Lemma lex_zero_end (neg : bool) (k : string) (ts : list token) :
  delimited k -> lex LIdle k = Some ts ->
  lex (LZero neg) k = Some (TNumber 0 :: ts).
Proof.
  destruct k as [|c k].
  - intros _ [= <-]. reflexivity.
  - intros Hdel Hk. rewrite lex_cons. cbn [step]. unfold is_digit. rewrite (proj1 Hdel).
    by apply lex_after_int.
Qed.

Lemma lex_word_end (acc : string) (k : string) (ts : list token) :
  delimited k -> lex LIdle k = Some ts ->
  lex (LWord acc) k = Some (TWord acc :: ts).
Proof.
  destruct k as [|c k].
  - intros _ [= <-]. reflexivity.
  - intros (_ & Hl & _) Hk. rewrite lex_cons. cbn [step]. rewrite Hl.
    by apply lex_close.
Qed.

Lemma lex_digits (d acc : Decimal.uint) (neg : bool) (k : string) :
  lex (LNum neg acc) (NilEmpty.string_of_uint d +:+ k)
  = lex (LNum neg (Decimal.revapp d acc)) k.
Proof.
  revert acc. induction d; intros acc; simpl NilEmpty.string_of_uint;
    rewrite ?append_cons, ?append_nil;
    [reflexivity | lex_step; rewrite IHd; reflexivity ..].
Qed.

(** The decimal digits of a positive number do not start with a zero. *)
Lemma nzhead_head (d d0 : Decimal.uint) : Decimal.nzhead d <> Decimal.D0 d0.
Proof. induction d; simpl; done. Qed.

Lemma to_uint_head (p : positive) (d : Decimal.uint) : Pos.to_uint p <> Decimal.D0 d.
Proof.
  intros H.
  assert (Hnorm : Decimal.unorm (Pos.to_uint p) = Pos.to_uint p).
  { rewrite <- DecimalPos.Unsigned.to_of, DecimalPos.Unsigned.of_to. reflexivity. }
  rewrite H in Hnorm. unfold Decimal.unorm in Hnorm. simpl in Hnorm.
  destruct (Decimal.nzhead d) eqn:E; try (by apply (nzhead_head d d) in E || discriminate).
  - injection Hnorm as <-. by apply (DecimalPos.Unsigned.to_uint_nonzero p).
  - injection Hnorm as Hd. rewrite <- Hd in E. by apply nzhead_head in E.
Qed.

Lemma lex_uint (d : Decimal.uint) (neg : bool) (k : string) (ts : list token) :
  d <> Decimal.Nil -> (forall d0, d <> Decimal.D0 d0) ->
  delimited k -> lex LIdle k = Some ts ->
  lex (if neg then LMinus else LIdle) (NilEmpty.string_of_uint d +:+ k)
  = Some (TNumber (Z.of_int (if neg then Decimal.Neg d else Decimal.Pos d)) :: ts).
Proof.
  intros Hd Hz Hdel Hk.
  assert (Hend : forall acc, Decimal.rev acc = d ->
            lex (LNum neg acc) k
            = Some (TNumber (Z.of_int (if neg then Decimal.Neg d else Decimal.Pos d)) :: ts)).
  { intros acc <-. rewrite (lex_number_end neg acc k ts Hdel Hk). unfold number_of.
    reflexivity. }
  destruct d; [done | by destruct (Hz d) | ..]; simpl NilEmpty.string_of_uint;
    rewrite append_cons;
    destruct neg; lex_step; rewrite lex_digits; apply Hend;
    match goal with |- _ = ?x => exact (rev_rev x) end.
Qed.

Lemma lex_print_number (z : Z) (k : string) (ts : list token) :
  delimited k -> lex LIdle k = Some ts ->
  lex LIdle (print_number z k) = Some (TNumber z :: ts).
Proof.
  intros Hdel Hk. unfold print_number.
  destruct z as [|p|p].
  - change (NilEmpty.string_of_int (Z.to_int 0)) with "0".
    rewrite append_cons, append_nil. lex_step. by apply lex_zero_end.
  - rewrite <- (DecimalZ.of_to (Z.pos p)) at 2.
    apply (lex_uint (Pos.to_uint p) false);
      [apply DecimalPos.Unsigned.to_uint_nonnil | apply to_uint_head | done..].
  - rewrite <- (DecimalZ.of_to (Z.neg p)) at 2.
    change (NilEmpty.string_of_int (Z.to_int (Z.neg p)))
      with (String "-" (NilEmpty.string_of_uint (Pos.to_uint p))).
    rewrite append_cons. lex_step.
    apply (lex_uint (Pos.to_uint p) true);
      [apply DecimalPos.Unsigned.to_uint_nonnil | apply to_uint_head | done..].
Qed.

Lemma lex_null (k : string) (ts : list token) :
  delimited k -> lex LIdle k = Some ts ->
  lex LIdle ("null" +:+ k) = Some (TWord "null" :: ts).
Proof.
  intros Hdel Hk. rewrite !append_cons, append_nil. repeat lex_step.
  by apply lex_word_end.
Qed.

Lemma lex_true (k : string) (ts : list token) :
  delimited k -> lex LIdle k = Some ts ->
  lex LIdle ("true" +:+ k) = Some (TWord "true" :: ts).
Proof.
  intros Hdel Hk. rewrite !append_cons, append_nil. repeat lex_step.
  by apply lex_word_end.
Qed.

Lemma lex_false (k : string) (ts : list token) :
  delimited k -> lex LIdle k = Some ts ->
  lex LIdle ("false" +:+ k) = Some (TWord "false" :: ts).
Proof.
  intros Hdel Hk. rewrite !append_cons, append_nil. repeat lex_step.
  by apply lex_word_end.
Qed.

Lemma print_array (ind : nat) (v0 : value) (vs : list value) (k : string) :
  print ind (Array (v0 :: vs)) k
  = String "[" (newline (ind + 2) (print (ind + 2) v0 (print_elements ind k vs))).
Proof. reflexivity. Qed.

Lemma print_object (ind : nat) (f0 : string * value) (fs : list (string * value))
    (k : string) :
  print ind (Object (f0 :: fs)) k
  = String "{" (newline (ind + 2) (print_string (fst f0) (String ":" (String " "
      (print (ind + 2) (snd f0) (print_members ind k fs)))))).
Proof. reflexivity. Qed.

Lemma tokens_array (v0 : value) (vs : list value) (k : list token) :
  tokens (Array (v0 :: vs)) k = TLBracket :: tokens v0 (tokens_elements k vs).
Proof. reflexivity. Qed.

Lemma tokens_object (f0 : string * value) (fs : list (string * value)) (k : list token) :
  tokens (Object (f0 :: fs)) k
  = TLBrace :: TStr (fst f0) :: TColon :: tokens (snd f0) (tokens_members k fs).
Proof. reflexivity. Qed.

Lemma delimited_print_elements ind k vs : delimited (print_elements ind k vs).
Proof. by destruct vs. Qed.

Lemma delimited_print_members ind k fs : delimited (print_members ind k fs).
Proof. by destruct fs. Qed.

Lemma lex_print_elements (ind : nat) (k : string) (ts : list token) (vs : list value) :
  Forall (fun v => forall ind k ts, delimited k -> lex LIdle k = Some ts ->
                     lex LIdle (print ind v k) = Some (tokens v ts)) vs ->
  lex LIdle k = Some ts ->
  lex LIdle (print_elements ind k vs) = Some (tokens_elements ts vs).
Proof.
  intros Hvs Hk. induction Hvs as [|v vs Hv _ IH].
  - unfold print_elements, tokens_elements. simpl foldr.
    rewrite lex_newline. lex_step. by rewrite Hk.
  - change (print_elements ind k (v :: vs))
      with (String "," (newline (ind + 2) (print (ind + 2) v (print_elements ind k vs)))).
    lex_step. rewrite lex_newline.
    rewrite (Hv _ _ _ (delimited_print_elements ind k vs) IH). reflexivity.
Qed.

Lemma lex_print_members (ind : nat) (k : string) (ts : list token)
    (fs : list (string * value)) :
  Forall (fun f => forall ind k ts, delimited k -> lex LIdle k = Some ts ->
                     lex LIdle (print ind (snd f) k) = Some (tokens (snd f) ts)) fs ->
  lex LIdle k = Some ts ->
  lex LIdle (print_members ind k fs) = Some (tokens_members ts fs).
Proof.
  intros Hfs Hk. induction Hfs as [|f fs Hf _ IH].
  - unfold print_members, tokens_members. simpl foldr.
    rewrite lex_newline. lex_step. by rewrite Hk.
  - change (print_members ind k (f :: fs))
      with (String "," (newline (ind + 2) (print_string (fst f) (String ":" (String " "
              (print (ind + 2) (snd f) (print_members ind k fs))))))).
    lex_step. rewrite lex_newline.
    erewrite lex_print_string; [reflexivity|].
    lex_step. lex_step.
    rewrite (Hf _ _ _ (delimited_print_members ind k fs) IH). reflexivity.
Qed.

(** The elements of an integral array, and the members of an integral
    object, are integral: what was shown for each applies. *)
Lemma lexes_elements (vs : list value) :
  Forall lexes vs -> forallb integral vs = true ->
  Forall (fun v => forall ind k ts, delimited k -> lex LIdle k = Some ts ->
                     lex LIdle (print ind v k) = Some (tokens v ts)) vs.
Proof.
  induction 1 as [|v vs Hv _ IH]; [constructor|].
  cbn [forallb]. intros [Hi His]%andb_prop. constructor; [by apply Hv | by apply IH].
Qed.

Lemma lexes_members (fs : list (string * value)) :
  Forall (fun f => lexes (snd f)) fs -> forallb (fun f => integral (snd f)) fs = true ->
  Forall (fun f => forall ind k ts, delimited k -> lex LIdle k = Some ts ->
                     lex LIdle (print ind (snd f) k) = Some (tokens (snd f) ts)) fs.
Proof.
  induction 1 as [|f fs Hf _ IH]; [constructor|].
  cbn [forallb]. intros [Hi His]%andb_prop. constructor; [by apply Hf | by apply IH].
Qed.

Lemma lex_print (v : value) : lexes v.
Proof.
  induction v as [| [] | z | lit | s | vs IH | fs IH] using value_ind';
    intros Hint ind k ts Hdel Hk.
  - by apply lex_null.
  - by apply lex_true.
  - by apply lex_false.
  - by apply lex_print_number.
  - discriminate.
  - by apply lex_print_string.
  - destruct vs as [|v0 vs].
    + change (print ind (Array []) k) with (String "[" (String "]" k)).
      lex_step. lex_step. by rewrite Hk.
    + apply (lexes_elements _ IH) in Hint. apply Forall_cons in Hint as [Hv0 Hvs].
      rewrite print_array, tokens_array. lex_step. rewrite lex_newline.
      rewrite (Hv0 _ _ (tokens_elements ts vs) (delimited_print_elements ind k vs));
        [reflexivity|].
      by apply lex_print_elements.
  - destruct fs as [|f0 fs].
    + change (print ind (Object []) k) with (String "{" (String "}" k)).
      lex_step. lex_step. by rewrite Hk.
    + apply (lexes_members _ IH) in Hint. apply Forall_cons in Hint as [Hf0 Hfs].
      rewrite print_object, tokens_object. lex_step. rewrite lex_newline.
      erewrite lex_print_string; [reflexivity|].
      lex_step. lex_step.
      rewrite (Hf0 _ _ (tokens_members ts fs) (delimited_print_members ind k fs));
        [reflexivity|].
      by apply lex_print_members.
Qed.

(** *** Parsing the tokens of a value *)

Lemma tokens_head (v : value) (k : list token) :
  exists t r, tokens v k = t :: r /\ t <> TRBracket /\ t <> TRBrace.
Proof.
  destruct v as [| [] | z | lit | s | [|v0 vs] | [|f0 fs]]; simpl; eauto.
Qed.

Lemma parse_value_array (fuel : nat) (t : token) (r : list token) :
  t <> TRBracket ->
  parse_value (S fuel) (TLBracket :: t :: r)
  = match parse_elements fuel (t :: r) with
    | Some (vs, r') => Some (Array vs, r')
    | None => None
    end.
Proof. destruct t; done. Qed.

Lemma parse_value_object (fuel : nat) (t : token) (r : list token) :
  t <> TRBrace ->
  parse_value (S fuel) (TLBrace :: t :: r)
  = match parse_members fuel (t :: r) with
    | Some (fs, r') => Some (Object fs, r')
    | None => None
    end.
Proof. destruct t; done. Qed.

Lemma parse_elements_tokens (vs : list value) (v0 : value) (fuel : nat) (k : list token) :
  Forall parses (v0 :: vs) ->
  (need_elements (v0 :: vs) <= fuel)%nat ->
  parse_elements fuel (tokens v0 (tokens_elements k vs)) = Some (v0 :: vs, k).
Proof.
  revert v0 fuel. induction vs as [|v1 vs IH]; intros v0 fuel Hall Hfuel;
    apply Forall_cons in Hall as [Hv0 Hvs];
    (destruct fuel as [|fuel]; [simpl in Hfuel; lia|]);
    change (need_elements (v0 :: ?l)) with (S (size v0 + need_elements l)) in Hfuel;
    simpl parse_elements; rewrite Hv0 by lia.
  - reflexivity.
  - change (tokens_elements k (v1 :: vs))
      with (TComma :: tokens v1 (tokens_elements k vs)).
    rewrite IH; [reflexivity | done | lia].
Qed.

Lemma parse_members_tokens (fs : list (string * value)) (f0 : string * value)
    (fuel : nat) (k : list token) :
  Forall (fun f => parses (snd f)) (f0 :: fs) ->
  (need_members (f0 :: fs) <= fuel)%nat ->
  parse_members fuel (TStr (fst f0) :: TColon :: tokens (snd f0) (tokens_members k fs))
  = Some (f0 :: fs, k).
Proof.
  revert f0 fuel. induction fs as [|f1 fs IH]; intros f0 fuel Hall Hfuel;
    apply Forall_cons in Hall as [Hf0 Hfs];
    (destruct fuel as [|fuel]; [simpl in Hfuel; lia|]);
    change (need_members (f0 :: ?l)) with (S (size (snd f0) + need_members l)) in Hfuel;
    simpl parse_members; rewrite Hf0 by lia.
  - by destruct f0.
  - change (tokens_members k (f1 :: fs))
      with (TComma :: TStr (fst f1) :: TColon :: tokens (snd f1) (tokens_members k fs)).
    rewrite IH; [by destruct f0 | done | lia].
Qed.

Lemma parse_tokens (v : value) : parses v.
Proof.
  induction v as [| [] | z | lit | s | vs IH | fs IH] using value_ind'; intros fuel k Hfuel;
    (destruct fuel as [|fuel]; [simpl in Hfuel; lia|]); try reflexivity.
  - destruct vs as [|v0 vs]; [reflexivity|].
    rewrite tokens_array.
    destruct (tokens_head v0 (tokens_elements k vs)) as (t & r & Ht & Hne & _).
    rewrite Ht, parse_value_array, <- Ht by done.
    rewrite parse_elements_tokens; [reflexivity | done |].
    change (size (Array (v0 :: vs))) with (S (need_elements (v0 :: vs))) in Hfuel. lia.
  - destruct fs as [|f0 fs]; [reflexivity|].
    rewrite tokens_object, parse_value_object by done.
    rewrite parse_members_tokens; [reflexivity | done |].
    change (size (Object (f0 :: fs))) with (S (need_members (f0 :: fs))) in Hfuel. lia.
Qed.

Lemma tokens_elements_bound (vs : list value) (k : list token) :
  Forall bounded vs ->
  (need_elements vs + 2 * length k <= 2 * length (tokens_elements k vs))%nat.
Proof.
  induction 1 as [|v vs Hv _ IH]; simpl; [lia|].
  specialize (Hv (tokens_elements k vs)). unfold tokens_elements, need_elements in *. lia.
Qed.

Lemma tokens_members_bound (fs : list (string * value)) (k : list token) :
  Forall (fun f => bounded (snd f)) fs ->
  (need_members fs + 2 * length k <= 2 * length (tokens_members k fs))%nat.
Proof.
  induction 1 as [|f fs Hf _ IH]; simpl; [lia|].
  specialize (Hf (tokens_members k fs)). unfold tokens_members, need_members in *. lia.
Qed.

Lemma size_bound (v : value) : bounded v.
Proof.
  induction v as [| [] | z | lit | s | vs IH | fs IH] using value_ind'; intros k;
    try (simpl; lia).
  - destruct vs as [|v0 vs]; [simpl; lia|].
    apply Forall_cons in IH as [Hv0 Hvs].
    rewrite tokens_array.
    change (size (Array (v0 :: vs))) with (S (S (size v0 + need_elements vs))).
    specialize (Hv0 (tokens_elements k vs)).
    pose proof (tokens_elements_bound vs k Hvs). simpl length. lia.
  - destruct fs as [|f0 fs]; [simpl; lia|].
    apply Forall_cons in IH as [Hf0 Hfs].
    rewrite tokens_object.
    change (size (Object (f0 :: fs))) with (S (S (size (snd f0) + need_members fs))).
    specialize (Hf0 (tokens_members k fs)).
    pose proof (tokens_members_bound fs k Hfs). simpl length. lia.
Qed.

(** [JSON.parse(JSON.stringify(v, null, 2))] is [v]. *)
Lemma parse_stringify (v : value) : integral v = true -> parse (stringify v) = Some v.
Proof.
  intros Hint. unfold parse, stringify.
  rewrite (lex_print v Hint 0%nat EmptyString [] I eq_refl).
  rewrite parse_tokens; [reflexivity|].
  pose proof (size_bound v []). simpl in *. lia.
Qed.

(** *** Tasks *)

Lemma decode_list_cons {A} (f : value -> option A) (v : value) (vs : list value) :
  TaskJSON.decode_list f (v :: vs)
  = match f v, TaskJSON.decode_list f vs with
    | Some a, Some l => Some (a :: l)
    | _, _ => None
    end.
Proof. reflexivity. Qed.

Lemma decode_encode_entries (l : list WorkEntry) :
  TaskJSON.decode_list TaskJSON.decode_entry (map TaskJSON.encode_entry l) = Some l.
Proof.
  induction l as [|[s] l IH]; [done|].
  rewrite map_cons, decode_list_cons, IH. reflexivity.
Qed.

Lemma decode_encode_task (t : Task) :
  TaskJSON.decode_task (TaskJSON.encode_task t) = Some t.
Proof.
  destruct t as [i p d pr wl r c].
  unfold TaskJSON.encode_task, TaskJSON.decode_task. cbn -[TaskJSON.decode_list map].
  rewrite decode_encode_entries. by destruct pr.
Qed.

Lemma decode_encode_tasks (tasks : list Task) :
  TaskJSON.decode_tasks (TaskJSON.encode_tasks tasks) = Some tasks.
Proof.
  unfold TaskJSON.decode_tasks, TaskJSON.encode_tasks.
  induction tasks as [|t tasks IH]; [done|].
  rewrite map_cons, decode_list_cons, decode_encode_task, IH. reflexivity.
Qed.

(** The values the program writes hold integers only. *)
Lemma integral_encode_entries (l : list WorkEntry) :
  forallb integral (map TaskJSON.encode_entry l) = true.
Proof. induction l as [|e l IH]; [done|]. rewrite map_cons. cbn [forallb]. by rewrite IH. Qed.

Lemma integral_encode_tasks (tasks : list Task) :
  integral (TaskJSON.encode_tasks tasks) = true.
Proof.
  unfold TaskJSON.encode_tasks. cbn [integral].
  induction tasks as [|t tasks IH]; [done|].
  rewrite map_cons. cbn [forallb]. rewrite IH, andb_true_r.
  unfold TaskJSON.encode_task. cbn -[map]. by rewrite integral_encode_entries.
Qed.

End JSONFacts.

Lemma JSON_roundtrip (tasks : list Task) :
  JSON.parse (JSON_stringify_tasks tasks) = Some (TaskJSON.encode_tasks tasks) /\
  TaskJSON.decode_tasks (TaskJSON.encode_tasks tasks) = Some tasks.
Proof.
  split; [apply JSONFacts.parse_stringify, JSONFacts.integral_encode_tasks
         | apply JSONFacts.decode_encode_tasks].
Qed.

(** Texts that tell the grammar apart from a grammar of integers: fractions
    and exponents are numbers, a leading zero is an error, and an escape
    above 255 is a character. *)
Lemma JSON_parse_grammar :
  JSON.parse "[1.5]" = Some (JSON.Array [JSON.Real "1.5"]) /\
  JSON.parse "[-0, 2e3, 0.5E-2]"
  = Some (JSON.Array [JSON.Number 0; JSON.Real "2e3"; JSON.Real "0.5E-2"]) /\
  JSON.parse (String "034" ("\u2014" +:+ String "034" EmptyString))
  = Some (JSON.Str (String "226" (String "128" (String "148" EmptyString)))) /\
  JSON.parse "01" = None /\ JSON.parse "-" = None /\ JSON.parse "1." = None /\
  JSON.parse ".5" = None /\ JSON.parse "1e" = None /\ JSON.parse "[1,]" = None /\
  JSON.parse EmptyString = None /\
  readTasks (Ex.with_store_text "01") = (Thrown SyntaxError, Ex.with_store_text "01").
Proof. vm_compute. done. Qed.

Lemma JSON_stringify_tasks_nonempty (tasks : list Task) :
  exists c s, JSON_stringify_tasks tasks = String c s.
Proof.
  unfold JSON_stringify_tasks, JSONPrint.stringify, TaskJSON.encode_tasks.
  destruct tasks as [|t tasks]; simpl; eauto.
Qed.

(** The world after [writeTasks] has succeeded. *)
Lemma writeTasks_outcome (tasks : list Task) (w : World) :
  (exists e, writeTasks tasks w = (Thrown e, w)) \/
  writeTasks tasks w
  = (Returned tt, set_fs (insert "./work/tasks.json" (File (JSON_stringify_tasks tasks))) w).
Proof. apply (writeWorkFile_outcome "tasks.json"). Qed.

(** [writeTasks] succeeds when the working directory exists and the path of
    the store is not a directory. *)
Lemma writeTasks_run (tasks : list Task) (w : World) :
  Fs.is_directory (fs w) "./work" = true ->
  Fs.is_directory (fs w) "./work/tasks.json" = false ->
  writeTasks tasks w
  = (Returned tt, set_fs (insert "./work/tasks.json" (File (JSON_stringify_tasks tasks))) w).
Proof.
  intros Hwork Hfile. unfold writeTasks. rewrite writeWorkFile_run; [reflexivity|].
  split; [exact Hwork | exact Hfile].
Qed.

(** It succeeds when the store is there already. *)
Lemma writeTasks_existing (tasks : list Task) (text : string) (w : World) :
  store_text w = Some text ->
  writeTasks tasks w
  = (Returned tt, set_fs (insert "./work/tasks.json" (File (JSON_stringify_tasks tasks))) w).
Proof.
  unfold store_text, file_at, file_in. intros Hfile.
  destruct (writeTasks_outcome tasks w) as [[e He]|Hrun]; [|exact Hrun].
  exfalso. revert He. unfold writeTasks, writeWorkFile, bind, ret, Fs.writeFile.
  change (JS.includes "tasks.json" "/") with false.
  change (negb (JS.includes "tasks.json" ".")) with false. cbv iota.
  change ("./work/" +:+ "tasks.json") with "./work/tasks.json". cbv beta iota.
  unfold Fs.is_directory. by destruct (fs w !! "./work/tasks.json") as [[t|]|].
Qed.

(** What is written to the store is what the next read returns. *)
Lemma readTasks_written (tasks : list Task) (w : World) :
  readTasks (set_fs (insert "./work/tasks.json" (File (JSON_stringify_tasks tasks))) w)
  = (Returned tasks,
     set_fs (insert "./work/tasks.json" (File (JSON_stringify_tasks tasks))) w).
Proof.
  rewrite readTasks_eq. unfold store_text, file_at, file_in. simpl.
  rewrite lookup_insert_eq.
  destruct (JSON_stringify_tasks_nonempty tasks) as (c & s & Hs).
  destruct (JSON_roundtrip tasks) as [Hparse Hdecode].
  rewrite Hs. rewrite <- Hs. unfold JSON_parse_tasks. by rewrite Hparse, Hdecode.
Qed.

(** A store that holds a task is a file with a text. *)
Lemma readTasks_nonempty (w : World) (t : Task) (cur : list Task) :
  fst (readTasks w) = Returned (t :: cur) -> exists text, store_text w = Some text.
Proof.
  rewrite readTasks_eq. destruct (store_text w) as [[|c s]|]; [done | eauto | done].
Qed.

(** ** The scheduling step *)

Lemma findIndex_None {A} (p : A -> bool) (l : list A) :
  Forall (fun x => p x = false) l -> JS.findIndex p l = None.
Proof. induction 1 as [|x l Hx _ IH]; simpl; [done|]. by rewrite Hx, IH. Qed.

Lemma mapM_newSubtask (task : Task) (sts : list Subtask) (w : World) :
  mapM (newSubtask task) sts w
  = (Returned (children_from task (taskNum w) sts),
     {| fs := fs w; taskNum := taskNum w + Z.of_nat (length sts);
        taskStack := taskStack w; trace := trace w |}).
Proof.
  revert w. induction sts as [|s sts IH]; intros w; simpl.
  - unfold ret. destruct w; simpl. do 2 f_equal. lia.
  - unfold bind. unfold newSubtask at 1. rewrite IH. simpl. unfold ret.
    do 2 f_equal. lia.
Qed.

Lemma children_from_length (task : Task) (n : Z) (sts : list Subtask) :
  length (children_from task n sts) = length sts.
Proof. revert n. induction sts as [|s sts IH]; intros n; simpl; [done|]. by rewrite IH. Qed.

Lemma children_from_ids (task : Task) (n : Z) (sts : list Subtask) :
  map id (children_from task n sts) = seqZ (n + 1) (Z.of_nat (length sts)).
Proof.
  revert n. induction sts as [|s sts IH]; intros n; [done|].
  change (length (s :: sts)) with (S (length sts)).
  rewrite Nat2Z.inj_succ, seqZ_cons by lia. simpl. rewrite IH. do 2 f_equal. lia.
Qed.

Lemma children_from_shape (task : Task) (n : Z) (sts : list Subtask) :
  Forall (fun c => n < id c /\ parentId c = id task /\ work_ledger c = [] /\
                   completed c = false)
         (children_from task n sts).
Proof.
  revert n. induction sts as [|s sts IH]; intros n; simpl; constructor.
  - simpl. repeat split. lia.
  - eapply Forall_impl; [apply IH|]. simpl. intros c (? & ? & ? & ?). repeat split; auto. lia.
Qed.

Section Step.
Variable svc : Services.

(** The claim C3 as stated fails: the counter starts again with every
    process while the store stays.  With a store that holds the tasks 1 and
    2 of an earlier run and the counter at 1, the child created gets the
    identifier 2, which the store already has. *)
Lemma processTask_subtasks_reuses_id :
  fst (readTasks (Ex.stored [Ex.root; Ex.child 2 low false]))
  = Returned [Ex.root; Ex.child 2 low false] /\
  taskNum (Ex.stored [Ex.root; Ex.child 2 low false]) = 1 /\
  exists c,
    fst (readTasks (snd (processTask (Ex.services (subtasks [Ex.draft]) None defer)
                           Ex.root (Ex.stored [Ex.root; Ex.child 2 low false]))))
    = Returned [Ex.root; Ex.child 2 low false; c] /\
    id c = id (Ex.child 2 low false).
Proof. split; [|split; [|eexists; split]]; vm_compute; reflexivity. Qed.

(** With a store that cannot be parsed the step stops at the read: it
    throws, nothing is written and nothing is pushed. *)
Lemma processTask_subtasks_unreadable_store :
  fst (processTask (Ex.services (subtasks [Ex.draft]) None defer)
                   Ex.root (Ex.with_store_text "{"))
  = Thrown SyntaxError /\
  store_text (snd (processTask (Ex.services (subtasks [Ex.draft]) None defer)
                               Ex.root (Ex.with_store_text "{")))
  = Some "{" /\
  taskStack (snd (processTask (Ex.services (subtasks [Ex.draft]) None defer)
                              Ex.root (Ex.with_store_text "{")))
  = [].
Proof. vm_compute. done. Qed.

(** C3 (amended): when the classifier answers with n subtasks, the store
    can be read and it can be written (the working directory exists and the
    path of the store is not a directory), the step adds exactly n tasks to
    the store, after the ones it held; the children are numbered with the
    next n values of the counter and have the parent [task], an empty ledger
    and completed = false; the identifier of [task] is pushed on the stack
    and the directive is advance.  The identifiers are new to the store
    provided no stored identifier exceeds the counter. *)
Theorem processTask_subtasks (task : Task) (sts : list Subtask) (cur : list Task)
    (w w1 : World) :
  preProcessTask svc task w = (Returned (subtasks sts), w1) ->
  fst (readTasks w) = Returned cur ->
  Fs.is_directory (fs w) "./work" = true ->
  Fs.is_directory (fs w) "./work/tasks.json" = false ->
  exists w' children,
    processTask svc task w = (Returned {| next := true |}, w') /\
    fst (readTasks w') = Returned (cur ++ children) /\
    length (cur ++ children) = (length cur + length sts)%nat /\
    map id children = seqZ (taskNum w + 1) (Z.of_nat (length sts)) /\
    Forall (fun c => parentId c = id task /\ work_ledger c = [] /\ completed c = false)
           children /\
    (Forall (fun t => id t <= taskNum w) cur ->
     Forall (fun c => Forall (fun t => id c <> id t) cur) children) /\
    taskNum w' = taskNum w + Z.of_nat (length sts) /\
    taskStack w' = taskStack w ++ [id task].
Proof.
  intros Hpre Hread Hwork Hfile.
  pose proof (read_only_preProcessTask svc task _ _ _ Hpre) as (Hfs & Hnum & Hstack).
  set (w2 := {| fs := fs w1; taskNum := taskNum w1 + Z.of_nat (length sts);
                taskStack := taskStack w1; trace := trace w1 |}).
  assert (Hread2 : readTasks w2 = (Returned cur, w2)).
  { apply readTasks_run. rewrite <- Hread.
    apply readTasks_store_text. unfold store_text, file_at. simpl. by rewrite Hfs. }
  set (children := children_from task (taskNum w) sts).
  set (w3 := set_fs (insert "./work/tasks.json"
                       (File (JSON_stringify_tasks (cur ++ children)))) w2).
  assert (Hwrite : writeTasks (cur ++ children) w2 = (Returned tt, w3)).
  { apply writeTasks_run; simpl; by rewrite Hfs. }
  exists (snd (push (id task) w3)), children.
  split.
  { unfold processTask, bind. rewrite Hpre, mapM_newSubtask. fold w2.
    rewrite Hread2, Hnum. fold children. rewrite Hwrite. reflexivity. }
  split.
  { rewrite <- (readTasks_store_text w3) by reflexivity.
    unfold w3. by rewrite readTasks_written. }
  split; [unfold children; by rewrite length_app, children_from_length|].
  split; [apply children_from_ids|].
  split.
  { eapply Forall_impl; [apply children_from_shape|]. simpl. tauto. }
  split.
  { intros Hbound. eapply Forall_impl; [apply children_from_shape|]. simpl.
    intros c (Hc & _). eapply Forall_impl; [exact Hbound|]. simpl. lia. }
  simpl. split; [lia | by rewrite Hstack].
Qed.

(** When the store cannot be written (a directory lies at its path, or the
    working directory is missing) the step throws at the write: nothing is
    stored and nothing is pushed, and the counter has moved on. *)
Lemma processTask_subtasks_unwritable_store (task : Task) (sts : list Subtask)
    (cur : list Task) (w w1 : World) :
  preProcessTask svc task w = (Returned (subtasks sts), w1) ->
  fst (readTasks w) = Returned cur ->
  Fs.is_directory (fs w) "./work/tasks.json" = true \/
  (fs w !! "./work/tasks.json" = None /\ Fs.is_directory (fs w) "./work" = false) ->
  exists e w',
    processTask svc task w = (Thrown e, w') /\
    fs w' = fs w /\
    taskStack w' = taskStack w /\
    taskNum w' = taskNum w + Z.of_nat (length sts).
Proof.
  intros Hpre Hread Hcannot.
  pose proof (read_only_preProcessTask svc task _ _ _ Hpre) as (Hfs & Hnum & Hstack).
  set (w2 := {| fs := fs w1; taskNum := taskNum w1 + Z.of_nat (length sts);
                taskStack := taskStack w1; trace := trace w1 |}).
  assert (Hread2 : readTasks w2 = (Returned cur, w2)).
  { apply readTasks_run. rewrite <- Hread.
    apply readTasks_store_text. unfold store_text, file_at. simpl. by rewrite Hfs. }
  destruct (writeWorkFile_fails "tasks.json"
              (JSON_stringify_tasks (cur ++ children_from task (taskNum w) sts)) w2)
    as [e He].
  { change (target "tasks.json") with "./work/tasks.json". simpl fs. rewrite Hfs.
    destruct Hcannot as [Hdir|[Hnone Hwork]]; [by right; left | right; right; done]. }
  exists e, w2. split.
  { unfold processTask, bind. rewrite Hpre, mapM_newSubtask. fold w2.
    rewrite Hread2, Hnum. unfold writeTasks. by rewrite He. }
  simpl. repeat split; congruence.
Qed.

(** C10: in the ready-to-execute branch, when execution has succeeded and the
    store read afterwards holds no task with the identifier of [task], the
    step writes nothing more: the ledger append is skipped and, after a
    complete evaluation, so is the completed flag.  No error is raised; the
    directive follows the evaluation. *)
Theorem processTask_task_not_in_store (task : Task) (prompt output : string)
    (cur : list Task) (d : PostProcessDecision) (w w1 w2 w3 : World) :
  preProcessTask svc task w = (Returned (executePromptT prompt), w1) ->
  executePrompt svc prompt (workDone task) w1 = (Returned output, w2) ->
  fst (readTasks w2) = Returned cur ->
  Forall (fun t => id t <> id task) cur ->
  postProcessTask svc task w2 = (Returned d, w3) ->
  processTask svc task w
  = (Returned {| next := match status d with continue => false | _ => true end |}, w3) /\
  fs w3 = fs w2 /\
  store_text w3 = store_text w2 /\
  fst (readTasks w3) = Returned cur.
Proof.
  intros Hpre Hexec Hread Hmiss Hpost.
  pose proof (read_only_postProcessTask svc task _ _ _ Hpost) as Hsame.
  assert (Hfind : JS.findIndex (fun t => id t =? id task) cur = None).
  { apply findIndex_None. eapply Forall_impl; [exact Hmiss|]. simpl. intros t Ht. lia. }
  assert (Hread3 : fst (readTasks w3) = Returned cur).
  { by rewrite (same_state_readTasks _ _ Hsame). }
  assert (Hrun : forall v, fst (readTasks v) = Returned cur -> readTasks v = (Returned cur, v)).
  { intros v Hv. destruct (readTasks v) as [r v'] eqn:E.
    pose proof (readTasks_world _ _ _ E) as ->. simpl in Hv. by subst. }
  split.
  { unfold processTask, bind. rewrite Hpre, Hexec, (Hrun _ Hread), Hfind.
    unfold ret at 1. rewrite Hpost.
    destruct (status d); [|done|done].
    by rewrite (Hrun _ Hread3), Hfind. }
  split; [apply Hsame|]. split; [by apply same_state_store_text | exact Hread3].
Qed.

(** Updating a stored task touches the file system only. *)
Lemma store_update_trace (f : Task -> Task) (task : Task) (cur : list Task) (v : World) :
  exists o v',
    (match JS.findIndex (fun t => id t =? id task) cur with
     | Some i => writeTasks (alter f i cur)
     | None => ret tt
     end) v = (o, v') /\
    trace v' = trace v /\ taskNum v' = taskNum v /\ taskStack v' = taskStack v.
Proof.
  destruct (JS.findIndex _ cur) as [i|]; [|by eexists _, _].
  destruct (writeTasks_outcome (alter f i cur) v) as [[e ->]| ->]; by eexists _, _.
Qed.

(** In the ready-to-execute branch the evaluator is always asked about the
    task object [task] as it was passed in: whatever the store holds after
    the append, the request carries the ledger text from before execution. *)
Lemma processTask_evaluate_request (task : Task) (prompt output : string)
    (r : Directive) (w w1 w2 w' : World) :
  preProcessTask svc task w = (Returned (executePromptT prompt), w1) ->
  executePrompt svc prompt (workDone task) w1 = (Returned output, w2) ->
  processTask svc task w = (Returned r, w') ->
  trace w' = trace w2 ++ [EvaluateRequest (description task) (workDone task)].
Proof.
  intros Hpre Hexec. unfold processTask, bind. rewrite Hpre, Hexec.
  destruct (readTasks w2) as [[cur1|e1] v1] eqn:E1; [|done].
  apply readTasks_world in E1 as ->.
  destruct (store_update_trace (push_work output) task cur1 w2) as (o1 & v1 & -> & Ht1 & _).
  destruct o1 as [[]|e1]; [|done].
  unfold postProcessTask, ask. rewrite Ht1.
  destruct (evaluator svc _ _ _) as [d|e]; [|done].
  destruct (status d); [|by intros [= _ <-]..].
  match goal with
  | |- context [readTasks ?v] =>
      destruct (readTasks v) as [[cur2|e2] v2] eqn:E2; [|done];
      apply readTasks_world in E2 as ->
  end.
  match goal with
  | |- context [Build_World ?a ?b ?c ?d] =>
      destruct (store_update_trace set_completed task cur2 (Build_World a b c d))
        as (o3 & v3 & -> & Ht3 & _)
  end.
  destruct o3 as [[]|e3]; [|done]. unfold ret. intros [= _ <-]. by rewrite Ht3.
Qed.

(** C5 fails on the code: the root task, stored with an empty ledger, is
    executed with success.  The summary is appended to the task in the
    store, but the request sent to the evaluator carries the ledger text of
    the task object passed in, which is still empty. *)
Theorem processTask_evaluates_stale_ledger :
  fst (readTasks (snd (processTask
        (Ex.services (executePromptT "Write the outline") (Some Ex.outline) continue)
        Ex.root (Ex.stored [Ex.root]))))
  = Returned [push_work "Wrote the outline" Ex.root] /\
  workDone (push_work "Wrote the outline" Ex.root) = "Wrote the outline" /\
  last (trace (snd (processTask
        (Ex.services (executePromptT "Write the outline") (Some Ex.outline) continue)
        Ex.root (Ex.stored [Ex.root]))))
  = Some (EvaluateRequest "Write a blog post" "").
Proof. vm_compute. done. Qed.

End Step.

(** ** The theorems at concrete inputs *)

Lemma processTask_notReady_witness :
  processTask (Ex.services (notReady None "Needs the outline first") None defer)
              Ex.root (Ex.stored [Ex.root])
  = (Returned {| next := true |},
     snd (preProcessTask (Ex.services (notReady None "Needs the outline first") None defer)
                         Ex.root (Ex.stored [Ex.root]))) /\
  fs (snd (preProcessTask (Ex.services (notReady None "Needs the outline first") None defer)
                          Ex.root (Ex.stored [Ex.root])))
  = fs (Ex.stored [Ex.root]).
Proof.
  destruct (processTask_notReady
              (Ex.services (notReady None "Needs the outline first") None defer)
              Ex.root (Ex.stored [Ex.root])
              (snd (preProcessTask
                      (Ex.services (notReady None "Needs the outline first") None defer)
                      Ex.root (Ex.stored [Ex.root])))
              None "Needs the outline first") as (Hrun & Hfs & _).
  - vm_compute; reflexivity.
  - split; [exact Hrun | exact Hfs].
Defined.

(** The generator gives no parsed output: the execution throws, and the
    store still holds the root task with its empty ledger. *)
Lemma processTask_execution_failure_witness :
  fst (processTask (Ex.services (executePromptT "Write the outline") None complete)
                   Ex.root (Ex.stored [Ex.root]))
  = Thrown (Error "No output from the model") /\
  fst (readTasks (snd (processTask
                         (Ex.services (executePromptT "Write the outline") None complete)
                         Ex.root (Ex.stored [Ex.root]))))
  = Returned [Ex.root].
Proof.
  destruct (processTask_execution_failure
              (Ex.services (executePromptT "Write the outline") None complete)
              Ex.root "Write the outline" (Error "No output from the model")
              (Ex.stored [Ex.root])
              (snd (preProcessTask
                      (Ex.services (executePromptT "Write the outline") None complete)
                      Ex.root (Ex.stored [Ex.root])))
              (snd (processTask
                      (Ex.services (executePromptT "Write the outline") None complete)
                      Ex.root (Ex.stored [Ex.root]))))
    as (Hrun & _ & _ & Hread & _).
  - vm_compute; reflexivity.
  - vm_compute; reflexivity.
  - split; [by rewrite Hrun|]. rewrite Hread. vm_compute; reflexivity.
Defined.

Lemma processTask_subtasks_witness :
  exists w' children,
    processTask (Ex.services (subtasks [Ex.draft; Ex.draft]) None defer)
                Ex.root (Ex.stored [Ex.root])
    = (Returned {| next := true |}, w') /\
    fst (readTasks w') = Returned ([Ex.root] ++ children) /\
    map id children = [2; 3] /\
    taskStack w' = [1].
Proof.
  destruct (processTask_subtasks
              (Ex.services (subtasks [Ex.draft; Ex.draft]) None defer)
              Ex.root [Ex.draft; Ex.draft] [Ex.root] (Ex.stored [Ex.root])
              (snd (preProcessTask
                      (Ex.services (subtasks [Ex.draft; Ex.draft]) None defer)
                      Ex.root (Ex.stored [Ex.root]))))
    as (w' & children & Hrun & Hread & _ & Hids & _ & _ & _ & Hstack).
  - vm_compute; reflexivity.
  - vm_compute; reflexivity.
  - vm_compute; reflexivity.
  - vm_compute; reflexivity.
  - exists w', children. repeat split; assumption.
Defined.

Lemma writeWorkFile_target_witness :
  exists w',
    writeWorkFile "notes/plan" "# Plan" Ex.boot = (Returned tt, w') /\
    file_at w' "./work/notes/plan.md" = Some "# Plan" /\
    file_at w' "./work/notes/plan" = None.
Proof.
  destruct (writeWorkFile_target "notes/plan" "# Plan" Ex.boot)
    as (w' & Hrun & Hat & Hothers & _).
  - reflexivity.
  - split; [vm_compute; reflexivity | vm_compute; reflexivity].
  - exists w'. split; [exact Hrun|]. split; [exact Hat|].
    rewrite Hothers; [reflexivity | discriminate].
Defined.

(** The task 9 is executed while the store holds the root task only. *)
Lemma processTask_task_not_in_store_witness :
  processTask (Ex.services (executePromptT "Write the outline") (Some Ex.outline) complete)
              (Ex.child 9 low false) (Ex.stored [Ex.root])
  = (Returned {| next := true |},
     snd (processTask
            (Ex.services (executePromptT "Write the outline") (Some Ex.outline) complete)
            (Ex.child 9 low false) (Ex.stored [Ex.root]))) /\
  fst (readTasks (snd (processTask
                         (Ex.services (executePromptT "Write the outline")
                                      (Some Ex.outline) complete)
                         (Ex.child 9 low false) (Ex.stored [Ex.root]))))
  = Returned [Ex.root].
Proof.
  destruct (processTask_task_not_in_store
              (Ex.services (executePromptT "Write the outline") (Some Ex.outline) complete)
              (Ex.child 9 low false) "Write the outline" "Wrote the outline" [Ex.root]
              {| status := complete; reason := None |}
              (Ex.stored [Ex.root])
              (snd (preProcessTask
                      (Ex.services (executePromptT "Write the outline")
                                   (Some Ex.outline) complete)
                      (Ex.child 9 low false) (Ex.stored [Ex.root])))
              (snd (executePrompt
                      (Ex.services (executePromptT "Write the outline")
                                   (Some Ex.outline) complete)
                      "Write the outline" (workDone (Ex.child 9 low false))
                      (snd (preProcessTask
                              (Ex.services (executePromptT "Write the outline")
                                           (Some Ex.outline) complete)
                              (Ex.child 9 low false) (Ex.stored [Ex.root])))))
              (snd (processTask
                      (Ex.services (executePromptT "Write the outline")
                                   (Some Ex.outline) complete)
                      (Ex.child 9 low false) (Ex.stored [Ex.root]))))
    as (Hrun & _ & _ & Hread).
  - vm_compute; reflexivity.
  - vm_compute; reflexivity.
  - vm_compute; reflexivity.
  - repeat constructor. discriminate.
  - vm_compute; reflexivity.
  - split; [exact Hrun | exact Hread].
Defined.

(** * Further properties *)

(** ** The comparator and the head of the selection *)

(** X1: [compareTaskPriority] is a consistent comparator, as [sort]
    requires: zero on equal priorities and only there, antisymmetric,
    transitive, and between -2 and 2. *)
Theorem compareTaskPriority_consistent (a b c : Task) :
  (compareTaskPriority a b = 0 <-> priority a = priority b) /\
  compareTaskPriority a b = - compareTaskPriority b a /\
  (compareTaskPriority a b <= 0 -> compareTaskPriority b c <= 0 ->
   compareTaskPriority a c <= 0) /\
  -2 <= compareTaskPriority a b <= 2.
Proof.
  rewrite !compareTaskPriority_rank.
  destruct (priority a), (priority b), (priority c); simpl;
    repeat split; (lia || congruence || tauto).
Qed.

(** X2: the task at the head of [getTaskList] has the lowest priority of all
    candidates and is, among the candidates of that priority, the first in
    store order. *)
Theorem getTaskList_head (stack : list Z) (tasks : list Task) (w w' : World)
    (t : Task) (rest : list Task) :
  readTasks w = (Returned tasks, w') ->
  getTaskList stack w = (Returned (t :: rest), w') ->
  t ∈ candidates stack tasks /\
  (forall c, c ∈ candidates stack tasks -> rank (priority t) <= rank (priority c)) /\
  head (filter (fun c => priority c = priority t) (candidates stack tasks)) = Some t.
Proof.
  intros Hread Hrun. rewrite (getTaskList_eq _ _ _ _ Hread) in Hrun.
  injection Hrun as Hsort.
  pose proof (sort_perm compareTaskPriority (candidates stack tasks)) as Hperm.
  pose proof (sort_ascending (candidates stack tasks)) as Hasc.
  pose proof (sort_stable (priority t) (candidates stack tasks)) as Hstable.
  rewrite Hsort in Hperm, Hasc, Hstable.
  split; [rewrite <- Hperm; left|]. split.
  - intros c Hc. rewrite <- Hperm in Hc. apply elem_of_cons in Hc as [->|Hc]; [lia|].
    unfold ascending in Hasc. apply StronglySorted_inv in Hasc as [_ Hall].
    rewrite Forall_forall in Hall. by apply Hall.
  - rewrite <- Hstable, filter_cons. by destruct (decide (priority t = priority t)).
Qed.

Lemma getTaskList_head_witness :
  getTaskList [1] (Ex.stored Ex.low_high_medium)
  = (Returned [Ex.child 2 low false; Ex.child 4 medium false; Ex.child 3 high false],
     Ex.stored Ex.low_high_medium) /\
  head (filter (fun c => priority c = low) (candidates [1] Ex.low_high_medium))
  = Some (Ex.child 2 low false).
Proof.
  assert (Hrun : getTaskList [1] (Ex.stored Ex.low_high_medium)
            = (Returned [Ex.child 2 low false; Ex.child 4 medium false;
                         Ex.child 3 high false], Ex.stored Ex.low_high_medium))
    by (vm_compute; reflexivity).
  split; [exact Hrun|].
  refine (proj2 (proj2 (getTaskList_head [1] Ex.low_high_medium
            (Ex.stored Ex.low_high_medium) (Ex.stored Ex.low_high_medium)
            (Ex.child 2 low false) [Ex.child 4 medium false; Ex.child 3 high false]
            _ Hrun))).
  vm_compute; reflexivity.
Defined.

(** X3: with no store on disk, or an empty one, [getTaskList] returns no
    task for any stack and changes nothing. *)
Theorem getTaskList_no_store (stack : list Z) (w : World) :
  store_text w = None \/ store_text w = Some EmptyString ->
  getTaskList stack w = (Returned [], w).
Proof.
  intros H.
  assert (Hread : readTasks w = (Returned [], w)).
  { rewrite readTasks_eq. by destruct H as [-> | ->]. }
  rewrite (getTaskList_eq stack [] w w Hread). reflexivity.
Qed.

Lemma getTaskList_no_store_witness :
  getTaskList [1; 2] Ex.boot = (Returned [], Ex.boot).
Proof. apply (getTaskList_no_store [1; 2] Ex.boot). left. reflexivity. Defined.

(** ** Reading files and listing the working directory *)



(** ** Writing, reading back and deleting *)

Lemma target_not_work (fileName : string) : target fileName <> "./work".
Proof.
  unfold target. intros H.
  change ("./work/" +:+ ?x) with ("./work" +:+ String "/" x) in H.
  apply append_self in H. discriminate.
Qed.

Lemma written_fs_is_file (fileName content p : string) (m : gmap string node) :
  p <> target fileName -> Fs.is_file (written_fs fileName content m) p = Fs.is_file m p.
Proof. intros Hp. by rewrite !is_file_file_in, written_fs_others. Qed.

(** Every directory on the way to the file written is one afterwards. *)
Lemma written_fs_directories (fileName content d : string) (m : gmap string node) :
  JS.includes fileName "/" = true ->
  existsb (Fs.is_file m) (Fs.ancestors ("./work/" +:+ dirPath fileName)) = false ->
  d ∈ Fs.ancestors ("./work/" +:+ dirPath fileName) ->
  Fs.is_directory (written_fs fileName content m) d = true.
Proof.
  intros Hinc Hfiles Hd. unfold written_fs. rewrite Hinc.
  apply is_directory_insert_file.
  - intros <-. by apply (target_not_ancestor fileName).
  - by apply ensure_dirs_made.
Qed.

Lemma existsb_agree {A} (f g : A -> bool) (l : list A) :
  (forall x, x ∈ l -> f x = g x) -> existsb f l = existsb g l.
Proof.
  induction l as [|x l IH]; [done|]. intros H. simpl.
  rewrite (H x) by left. rewrite IH; [done|]. intros y Hy. apply H. by right.
Qed.

(** What can be written once can be written again. *)
Lemma writable_written (fileName content : string) (w : World) :
  writable w fileName -> writable (set_fs (written_fs fileName content) w) fileName.
Proof.
  intros [Hdirs Hfile]. split.
  - destruct (JS.includes fileName "/") eqn:Hinc.
    + etrans; [|exact Hdirs]. cbn [fs set_fs].
      apply existsb_agree. intros d Hd. apply written_fs_is_file.
      intros ->. by apply (target_not_ancestor fileName).
    + cbn [fs set_fs]. unfold written_fs. rewrite Hinc.
      apply is_directory_insert_file; [apply target_not_work | exact Hdirs].
  - cbn [fs set_fs]. unfold written_fs, Fs.is_directory. by rewrite lookup_insert_eq.
Qed.

(** X6: a file written under a name that contains a dot is read back under
    that name, where the write can succeed. *)
Theorem writeWorkFile_readWorkFile (fileName content : string) (w : World) :
  plain fileName = true ->
  writable w fileName ->
  JS.includes fileName "." = true ->
  exists w',
    writeWorkFile fileName content w = (Returned tt, w') /\
    readWorkFile fileName w' = (Returned (Some content), w').
Proof.
  intros _ Hcan Hdot. eexists. split; [by apply writeWorkFile_run|].
  rewrite readWorkFile_eq. do 2 f_equal.
  pose proof (written_fs_target fileName content (fs w)) as H.
  unfold target in H. rewrite Hdot in H. exact H.
Qed.

Lemma writeWorkFile_readWorkFile_witness :
  exists w',
    writeWorkFile "notes/plan.md" "# Plan" Ex.boot = (Returned tt, w') /\
    readWorkFile "notes/plan.md" w' = (Returned (Some "# Plan"), w').
Proof.
  apply (writeWorkFile_readWorkFile "notes/plan.md" "# Plan" Ex.boot).
  - reflexivity.
  - split; [vm_compute; reflexivity | vm_compute; reflexivity].
  - reflexivity.
Defined.

(** X7: a file written under a name without any dot lands at the name
    followed by [.md]: where the write can succeed, it is read back under
    that longer name, while reading under the name given returns what was
    there before the write. *)
Theorem writeWorkFile_without_dot (fileName content : string) (w : World) :
  plain fileName = true ->
  writable w fileName ->
  JS.includes fileName "." = false ->
  exists w',
    writeWorkFile fileName content w = (Returned tt, w') /\
    readWorkFile (fileName +:+ ".md") w' = (Returned (Some content), w') /\
    fst (readWorkFile fileName w') = fst (readWorkFile fileName w).
Proof.
  intros _ Hcan Hdot. eexists. split; [by apply writeWorkFile_run|].
  rewrite !readWorkFile_eq. simpl.
  pose proof (written_fs_target fileName content (fs w)) as H.
  unfold target in H. rewrite Hdot in H. split; [do 2 f_equal; exact H|].
  f_equal. apply written_fs_others. unfold target. rewrite Hdot.
  intros Heq. apply (inj (String.app "./work/")) in Heq.
  symmetry in Heq. apply append_self in Heq. discriminate.
Qed.

Lemma writeWorkFile_without_dot_witness :
  exists w',
    writeWorkFile "notes" "text" Ex.boot = (Returned tt, w') /\
    readWorkFile "notes.md" w' = (Returned (Some "text"), w') /\
    fst (readWorkFile "notes" w') = fst (readWorkFile "notes" Ex.boot).
Proof.
  apply (writeWorkFile_without_dot "notes" "text" Ex.boot).
  - reflexivity.
  - split; [vm_compute; reflexivity | vm_compute; reflexivity].
  - reflexivity.
Defined.

(** X8: when the name has a directory part and the write can succeed,
    [writeWorkFile] makes sure that directory and every directory above it
    is a directory, and it removes no entry that was there. *)
Theorem writeWorkFile_creates_directories (fileName content : string) (w : World) :
  plain fileName = true ->
  writable w fileName ->
  JS.includes fileName "/" = true ->
  exists w',
    writeWorkFile fileName content w = (Returned tt, w') /\
    Fs.is_directory (fs w') ("./work/" +:+ dirPath fileName) = true /\
    (forall d, d ∈ Fs.ancestors ("./work/" +:+ dirPath fileName) ->
               Fs.is_directory (fs w') d = true /\ Fs.is_file (fs w') d = false) /\
    (forall p, is_Some (fs w !! p) -> is_Some (fs w' !! p)).
Proof.
  intros _ Hcan Hinc. eexists. split; [by apply writeWorkFile_run|].
  destruct Hcan as [Hdirs _]. rewrite Hinc in Hdirs. cbn [fs set_fs].
  assert (Hanc : forall d, d ∈ Fs.ancestors ("./work/" +:+ dirPath fileName) ->
            Fs.is_directory (written_fs fileName content (fs w)) d = true /\
            Fs.is_file (written_fs fileName content (fs w)) d = false).
  { intros d Hd. split; [by apply written_fs_directories|].
    rewrite written_fs_is_file.
    - destruct (Fs.is_file (fs w) d) eqn:E; [|done]. rewrite <- Hdirs. symmetry.
      apply existsb_exists. exists d. split; [by apply list_elem_of_In | exact E].
    - intros ->. by apply (target_not_ancestor fileName). }
  split; [apply Hanc, ancestors_self|]. split; [exact Hanc|].
  intros p Hp. by apply written_fs_keeps.
Qed.

Lemma writeWorkFile_creates_directories_witness :
  exists w',
    writeWorkFile "chapters/one/intro.md" "Hello" Ex.boot = (Returned tt, w') /\
    Fs.is_directory (fs w') "./work/chapters/one" = true /\
    Fs.is_directory (fs w') "./work/chapters" = true.
Proof.
  destruct (writeWorkFile_creates_directories "chapters/one/intro.md" "Hello" Ex.boot)
    as (w' & Hrun & Hdir & Hanc & _).
  - reflexivity.
  - split; [vm_compute; reflexivity | vm_compute; reflexivity].
  - reflexivity.
  - exists w'. split; [exact Hrun|]. split; [exact Hdir|].
    refine (proj1 (Hanc "./work/chapters" _)).
    change (Fs.ancestors ("./work/" +:+ dirPath "chapters/one/intro.md"))
      with ["./work/chapters/one"; "./work/chapters"; "./work"; "."].
    right. left.
Defined.

(** X9: writing is overwriting: where a write under a name can succeed, a
    second write under that name succeeds too and its content is the one
    that stays; writing the same content twice leaves the file system as
    writing it once. *)
Theorem writeWorkFile_overwrites (fileName c1 c2 : string) (w : World) :
  plain fileName = true ->
  writable w fileName ->
  exists w1 w2,
    writeWorkFile fileName c1 w = (Returned tt, w1) /\
    writeWorkFile fileName c2 w1 = (Returned tt, w2) /\
    file_at w2 (target fileName) = Some c2 /\
    (forall p, p <> target fileName -> file_at w2 p = file_at w p) /\
    (c2 = c1 -> fs w2 = fs w1).
Proof.
  intros _ Hcan. do 2 eexists.
  split; [by apply writeWorkFile_run|].
  split; [by apply writeWorkFile_run, writable_written|].
  split; [apply written_fs_target|]. split.
  - intros p Hp. unfold file_at. cbn [fs set_fs]. by rewrite !written_fs_others.
  - intros ->. cbn [fs set_fs]. unfold written_fs at 1.
    destruct (JS.includes fileName "/") eqn:Hinc.
    + rewrite ensure_dirs_same.
      * unfold written_fs. apply insert_insert_eq.
      * apply Forall_forall. intros d Hd. right.
        destruct (target_below_ancestors _ _ Hinc Hd) as [r Hr].
        apply has_below_spec. exists r. rewrite <- Hr.
        unfold written_fs. rewrite lookup_insert_eq. eauto.
    + unfold written_fs. rewrite Hinc. apply insert_insert_eq.
Qed.

Lemma writeWorkFile_overwrites_witness :
  exists w1 w2,
    writeWorkFile "notes/plan" "first" Ex.boot = (Returned tt, w1) /\
    writeWorkFile "notes/plan" "second" w1 = (Returned tt, w2) /\
    file_at w2 "./work/notes/plan.md" = Some "second".
Proof.
  destruct (writeWorkFile_overwrites "notes/plan" "first" "second" Ex.boot)
    as (w1 & w2 & H1 & H2 & Hat & _).
  - reflexivity.
  - split; [vm_compute; reflexivity | vm_compute; reflexivity].
  - exists w1, w2. split; [exact H1|]. split; [exact H2 | exact Hat].
Defined.

(** ** The store, deletion and the working directory *)

(** X10: the store round trip.  Where the working directory exists and the
    path of the store is not a directory, [writeTasks] succeeds and what it
    writes is what [readTasks] returns next, for every list of tasks; the
    text of every other file is as before. *)
Theorem writeTasks_readTasks (tasks : list Task) (w : World) :
  Fs.is_directory (fs w) "./work" = true ->
  Fs.is_directory (fs w) "./work/tasks.json" = false ->
  exists w',
    writeTasks tasks w = (Returned tt, w') /\
    readTasks w' = (Returned tasks, w') /\
    (forall p, p <> "./work/tasks.json" -> file_at w' p = file_at w p).
Proof.
  intros Hwork Hfile. eexists. split; [by apply writeTasks_run|].
  split; [apply readTasks_written|].
  intros p Hp. unfold file_at, file_in. simpl. by rewrite lookup_insert_ne.
Qed.

Lemma writeTasks_readTasks_witness :
  exists w',
    writeTasks Ex.low_high_medium Ex.boot = (Returned tt, w') /\
    readTasks w' = (Returned Ex.low_high_medium, w').
Proof.
  destruct (writeTasks_readTasks Ex.low_high_medium Ex.boot) as (w' & Hrun & Hread & _).
  - reflexivity.
  - vm_compute; reflexivity.
  - exists w'. split; [exact Hrun | exact Hread].
Defined.

(** X11: [deleteWorkFile] on an existing file removes that file and nothing
    else: reading it afterwards gives [undefined], every other path is as
    before, and deleting it a second time throws. *)
Theorem deleteWorkFile_removes (fileName text : string) (w : World) :
  fs w !! ("./work/" +:+ fileName) = Some (File text) ->
  exists w',
    deleteWorkFile fileName w = (Returned tt, w') /\
    fst (readWorkFile fileName w') = Returned None /\
    (forall p, p <> "./work/" +:+ fileName -> fs w' !! p = fs w !! p) /\
    deleteWorkFile fileName w' = (Thrown ENOENT, w').
Proof.
  intros Hfile. eexists. split.
  { unfold deleteWorkFile, FsDir.unlink. rewrite Hfile. reflexivity. }
  split; [|split].
  - rewrite readWorkFile_eq. unfold file_at, file_in. simpl. by rewrite lookup_delete_eq.
  - intros p Hp. simpl. by rewrite lookup_delete_ne.
  - unfold deleteWorkFile, FsDir.unlink. simpl. by rewrite lookup_delete_eq.
Qed.

Lemma deleteWorkFile_removes_witness :
  exists w',
    deleteWorkFile "tasks.json" (Ex.stored [Ex.root]) = (Returned tt, w') /\
    fst (readWorkFile "tasks.json" w') = Returned None.
Proof.
  destruct (deleteWorkFile_removes "tasks.json" (JSON_stringify_tasks [Ex.root])
              (Ex.stored [Ex.root])) as (w' & Hrun & Hread & _).
  - vm_compute; reflexivity.
  - exists w'. split; [exact Hrun | exact Hread].
Defined.

Lemma deleteWorkFile_no_file (fileName : string) (w : World) :
  file_at w ("./work/" +:+ fileName) = None ->
  exists e, deleteWorkFile fileName w = (Thrown e, w).
Proof.
  unfold file_at, file_in, deleteWorkFile, FsDir.unlink.
  destruct (fs w !! _) as [[text|]|]; [done | eauto..].
Qed.



(** X13: a file written under a name without any dot cannot be deleted under
    that name: where the write can succeed and no file was at the name
    before, [deleteWorkFile] throws and the written file stays. *)
Theorem deleteWorkFile_after_write_without_dot (fileName content : string) (w : World) :
  plain fileName = true ->
  writable w fileName ->
  JS.includes fileName "." = false ->
  file_at w ("./work/" +:+ fileName) = None ->
  exists w' e,
    writeWorkFile fileName content w = (Returned tt, w') /\
    deleteWorkFile fileName w' = (Thrown e, w') /\
    file_at w' ("./work/" +:+ fileName +:+ ".md") = Some content.
Proof.
  intros _ Hcan Hdot Hnone.
  destruct (deleteWorkFile_no_file fileName (set_fs (written_fs fileName content) w))
    as [e He].
  - unfold file_at. cbn [fs set_fs]. rewrite written_fs_others; [exact Hnone|].
    unfold target. rewrite Hdot.
    intros Heq. apply (inj (String.app "./work/")) in Heq.
    symmetry in Heq. apply append_self in Heq. discriminate.
  - eexists _, e. split; [by apply writeWorkFile_run|]. split; [exact He|].
    pose proof (written_fs_target fileName content (fs w)) as H.
    unfold target in H. by rewrite Hdot in H.
Qed.

Lemma deleteWorkFile_after_write_without_dot_witness :
  exists w' e,
    writeWorkFile "notes" "text" Ex.boot = (Returned tt, w') /\
    deleteWorkFile "notes" w' = (Thrown e, w').
Proof.
  destruct (deleteWorkFile_after_write_without_dot "notes" "text" Ex.boot)
    as (w' & e & Hrun & He & _).
  - reflexivity.
  - split; [vm_compute; reflexivity | vm_compute; reflexivity].
  - reflexivity.
  - reflexivity.
  - exists w', e. split; [exact Hrun | exact He].
Defined.

Lemma Array_includes_In (xs : list string) (x : string) :
  Array_includes xs x = true <-> x ∈ xs.
Proof.
  unfold Array_includes. rewrite existsb_exists, list_elem_of_In. split.
  - intros (y & Hy & Heq). apply String.eqb_eq in Heq. by subst.
  - intros H. exists x. split; [done|]. apply String.eqb_refl.
Qed.

Lemma readdir_work (w : World) :
  Array_includes (omap (fun e => FsDir.child_name "." (fst e)) (map_to_list (fs w))) "work"
  = true <-> is_Some (fs w !! "./work").
Proof.
  rewrite Array_includes_In, list_elem_of_omap. split.
  - intros ([p n] & Hin & Hname). apply elem_of_map_to_list in Hin.
    unfold FsDir.child_name in Hname.
    change (fst (p, n)) with p in Hname. change ("." +:+ "/") with "./" in Hname.
    destruct (Fs.strip_prefix "./" p) as [rel|] eqn:E; [|done].
    destruct (JS.includes rel "/"); [done|]. injection Hname as ->.
    apply strip_prefix_Some in E as [-> _]. by eexists.
  - intros [n Hn]. exists ("./work", n). split; [by apply elem_of_map_to_list|].
    reflexivity.
Qed.

Lemma createWorkDir_present (w : World) :
  is_Some (fs w !! "./work") -> createWorkDir w = (Returned tt, w).
Proof.
  intros Hw. unfold createWorkDir, bind, FsDir.readdir.
  apply readdir_work in Hw. by rewrite Hw.
Qed.

Lemma createWorkDir_absent (w : World) :
  fs w !! "./work" = None ->
  createWorkDir w = (Returned tt, set_fs (insert "./work" Dir) w).
Proof.
  intros E.
  assert (Hnot : Array_includes
            (omap (fun e => FsDir.child_name "." (fst e)) (map_to_list (fs w))) "work"
            = false).
  { destruct (Array_includes _ _) eqn:Hinc; [|done].
    apply readdir_work in Hinc. rewrite E in Hinc. by destruct Hinc. }
  unfold createWorkDir, bind, FsDir.readdir. rewrite Hnot. simpl.
  unfold FsDir.mkdir. by rewrite E.
Qed.

(** X14: [createWorkDir] never throws.  Afterwards [./work] exists; if it
    existed already nothing is changed, otherwise a directory is created
    there and every other path is as before; running it again changes
    nothing. *)
Theorem createWorkDir_ensures (w : World) :
  exists w',
    createWorkDir w = (Returned tt, w') /\
    is_Some (fs w' !! "./work") /\
    (is_Some (fs w !! "./work") -> w' = w) /\
    (fs w !! "./work" = None -> fs w' !! "./work" = Some Dir) /\
    (forall p, p <> "./work" -> fs w' !! p = fs w !! p) /\
    createWorkDir w' = (Returned tt, w').
Proof.
  destruct (fs w !! "./work") as [n|] eqn:E.
  - exists w. rewrite createWorkDir_present by (rewrite E; eauto).
    rewrite E. repeat split; eauto; done.
  - exists (set_fs (insert "./work" Dir) w).
    split; [by apply createWorkDir_absent|].
    simpl. rewrite lookup_insert_eq. split; [eauto|].
    split; [by intros []|]. split; [done|]. split.
    + intros p Hp. by rewrite lookup_insert_ne.
    + apply createWorkDir_present. simpl. rewrite lookup_insert_eq. eauto.
Qed.

(** ** More on the scheduling step *)

Lemma findIndex_alter {A} (p : A -> bool) (f : A -> A) (i : nat) (l : list A) :
  (forall x, p (f x) = p x) -> JS.findIndex p (alter f i l) = JS.findIndex p l.
Proof.
  intros Hf. revert i. induction l as [|x l IH]; intros [|i]; try done.
  - change (alter f 0%nat (x :: l)) with (f x :: l). simpl. by rewrite Hf.
  - change (alter f (S i) (x :: l)) with (x :: alter f i l). simpl. by rewrite IH.
Qed.

Lemma findIndex_Some {A} (p : A -> bool) (l : list A) (i : nat) :
  JS.findIndex p l = Some i ->
  exists x, l !! i = Some x /\ p x = true /\
            forall j y, (j < i)%nat -> l !! j = Some y -> p y = false.
Proof.
  revert i. induction l as [|x l IH]; intros i; simpl; [done|].
  destruct (p x) eqn:Hx.
  - intros [= <-]. exists x. repeat split; [done|]. intros j y Hj. lia.
  - destruct (JS.findIndex p l) as [i'|]; [|done]. intros [= <-].
    destruct (IH i' eq_refl) as (y & Hy & Hpy & Hfirst).
    exists y. repeat split; [done..|].
    intros [|j] z Hj; simpl; [by intros [= <-]|]. apply Hfirst. lia.
Qed.

Section More.
Variable svc : Services.

(** X15: when the classifier call fails, or gives no parsed output, the step
    fails with it and has touched nothing but the trace: no file, not the
    counter, not the stack. *)
Theorem processTask_classifier_failure (task : Task) (e : Exn) (w : World) :
  classifier svc (length (trace w)) (description task) (workDone task) = Thrown e \/
  (classifier svc (length (trace w)) (description task) (workDone task) = Returned None /\
   e = Error "No output from the model") ->
  exists w',
    processTask svc task w = (Thrown e, w') /\
    fs w' = fs w /\ taskNum w' = taskNum w /\ taskStack w' = taskStack w /\
    trace w' = trace w ++ [ClassifyRequest (description task) (workDone task)].
Proof.
  intros H. eexists. split.
  - unfold processTask, bind, preProcessTask, bind, ask.
    destruct H as [-> | [-> ->]]; reflexivity.
  - done.
Qed.

(** X16: the ready-to-execute branch when everything succeeds and the task is
    in the store.  The summary is appended to the ledger of the first stored
    task with the identifier of [task]; that task is marked completed exactly
    when the evaluation is complete; no other stored task changes; the
    directive is retry on continue and advance otherwise. *)
Theorem processTask_executes (task : Task) (prompt output : string)
    (cur : list Task) (i : nat) (d : PostProcessDecision) (w w1 w2 : World) :
  preProcessTask svc task w = (Returned (executePromptT prompt), w1) ->
  executePrompt svc prompt (workDone task) w1 = (Returned output, w2) ->
  fst (readTasks w2) = Returned cur ->
  JS.findIndex (fun t => id t =? id task) cur = Some i ->
  evaluator svc (length (trace w2)) (description task) (workDone task) = Returned d ->
  exists w' t0,
    processTask svc task w
    = (Returned {| next := match status d with continue => false | _ => true end |}, w') /\
    cur !! i = Some t0 /\ id t0 = id task /\
    (forall j tj, (j < i)%nat -> cur !! j = Some tj -> id tj <> id task) /\
    fst (readTasks w')
    = Returned (<[i := {| id := id t0; parentId := parentId t0;
                          description := description t0; priority := priority t0;
                          work_ledger := work_ledger t0 ++ [{| work_summary := output |}];
                          requirements_for_success := requirements_for_success t0;
                          completed := match status d with
                                       | complete => true
                                       | _ => completed t0
                                       end |}]> cur) /\
    taskStack w' = taskStack w2 /\ taskNum w' = taskNum w2.
Proof.
  intros Hpre Hexec Hread Hfind Heval.
  destruct (findIndex_Some _ _ _ Hfind) as (t0 & Ht0 & Hid & Hfirst).
  assert (Hstore : exists text, store_text w2 = Some text).
  { destruct cur as [|t cur']; [done|]. by eapply readTasks_nonempty. }
  destruct Hstore as [text Hstore].
  set (appended := alter (push_work output) i cur).
  set (w3 := set_fs (insert "./work/tasks.json" (File (JSON_stringify_tasks appended))) w2).
  assert (Hwrite : writeTasks appended w2 = (Returned tt, w3))
    by apply (writeTasks_existing _ text), Hstore.
  assert (Hread3 : forall v, fs v = fs w3 -> readTasks v = (Returned appended, v)).
  { intros v Hv. apply readTasks_run.
    rewrite (readTasks_store_text v w3) by (unfold store_text, file_at; by rewrite Hv).
    unfold w3. by rewrite readTasks_written. }
  assert (Hfind3 : JS.findIndex (fun t => id t =? id task) appended = Some i).
  { unfold appended. by rewrite findIndex_alter. }
  assert (Happ : appended = <[i := push_work output t0]> cur).
  { unfold appended. apply list_eq. intros j. destruct (decide (i = j)) as [<-|Hne].
    - rewrite list_lookup_alter_eq, Ht0.
      by rewrite list_lookup_insert_eq by (by apply lookup_lt_Some in Ht0).
    - by rewrite list_lookup_alter_ne, list_lookup_insert_ne. }
  set (w4 := snd (postProcessTask svc task w3)).
  destruct (status d) eqn:Hst.
  - (* complete *)
    exists (set_fs (insert "./work/tasks.json"
                      (File (JSON_stringify_tasks (alter set_completed i appended)))) w4), t0.
    split.
    { unfold processTask, bind. rewrite Hpre, Hexec, (readTasks_run _ _ Hread), Hfind.
      fold appended. rewrite Hwrite.
      unfold postProcessTask, ask. simpl trace.
      rewrite Heval, Hst. rewrite Hread3 by reflexivity. rewrite Hfind3.
      rewrite (writeTasks_existing _ (JSON_stringify_tasks appended)); [reflexivity|].
      unfold store_text, file_at, file_in. simpl. by rewrite lookup_insert_eq. }
    split; [done|]. split; [by apply Z.eqb_eq|]. split.
    { intros j tj Hj Htj Heq. specialize (Hfirst j tj Hj Htj). simpl in Hfirst. lia. }
    split; [|done].
    rewrite readTasks_written. simpl. f_equal. rewrite Happ.
    apply list_eq. intros j. destruct (decide (i = j)) as [<-|Hne].
    + rewrite list_lookup_alter_eq.
      rewrite !list_lookup_insert_eq by (by apply lookup_lt_Some in Ht0). reflexivity.
    + by rewrite list_lookup_alter_ne, !list_lookup_insert_ne.
  - (* continue *)
    exists w4, t0.
    split.
    { unfold processTask, bind. rewrite Hpre, Hexec, (readTasks_run _ _ Hread), Hfind.
      fold appended. rewrite Hwrite.
      unfold postProcessTask, ask. simpl trace. rewrite Heval, Hst. reflexivity. }
    split; [done|]. split; [by apply Z.eqb_eq|]. split.
    { intros j tj Hj Htj Heq. specialize (Hfirst j tj Hj Htj). simpl in Hfirst. lia. }
    split; [|done].
    rewrite (Hread3 w4 eq_refl).
    simpl. f_equal. rewrite Happ. by destruct t0.
  - (* defer *)
    exists w4, t0.
    split.
    { unfold processTask, bind. rewrite Hpre, Hexec, (readTasks_run _ _ Hread), Hfind.
      fold appended. rewrite Hwrite.
      unfold postProcessTask, ask. simpl trace. rewrite Heval, Hst. reflexivity. }
    split; [done|]. split; [by apply Z.eqb_eq|]. split.
    { intros j tj Hj Htj Heq. specialize (Hfirst j tj Hj Htj). simpl in Hfirst. lia. }
    split; [|done].
    rewrite (Hread3 w4 eq_refl).
    simpl. f_equal. rewrite Happ. by destruct t0.
Qed.

(** X17: when the evaluator call fails after a successful execution, the
    step fails with it, and the work entry appended before the call stays in
    the store. *)
Theorem processTask_evaluator_failure (task : Task) (prompt output : string)
    (cur : list Task) (i : nat) (e : Exn) (w w1 w2 : World) :
  preProcessTask svc task w = (Returned (executePromptT prompt), w1) ->
  executePrompt svc prompt (workDone task) w1 = (Returned output, w2) ->
  fst (readTasks w2) = Returned cur ->
  JS.findIndex (fun t => id t =? id task) cur = Some i ->
  evaluator svc (length (trace w2)) (description task) (workDone task) = Thrown e ->
  exists w',
    processTask svc task w = (Thrown e, w') /\
    fst (readTasks w') = Returned (alter (push_work output) i cur).
Proof.
  intros Hpre Hexec Hread Hfind Heval.
  assert (Hstore : exists text, store_text w2 = Some text).
  { destruct cur as [|t cur']; [done|]. by eapply readTasks_nonempty. }
  destruct Hstore as [text Hstore].
  set (w3 := set_fs (insert "./work/tasks.json"
                       (File (JSON_stringify_tasks (alter (push_work output) i cur)))) w2).
  exists (snd (postProcessTask svc task w3)).
  split.
  - unfold processTask, bind. rewrite Hpre, Hexec, (readTasks_run _ _ Hread), Hfind.
    rewrite (writeTasks_existing _ text) by exact Hstore. fold w3.
    unfold postProcessTask, ask. simpl trace.
    rewrite Heval. reflexivity.
  - rewrite <- (readTasks_store_text w3) by reflexivity.
    unfold w3. by rewrite readTasks_written.
Qed.

(** X18: the directive is retry only after an evaluation that says continue:
    whenever [processTask] returns [next = false], the classifier had
    answered with a prompt to execute, the execution had succeeded, and the
    evaluator, asked about [task] in this run right after the execution
    (its request is the last of the trace), had answered continue. *)
Theorem processTask_retry_only_on_continue (task : Task) (r : Directive) (w w' : World) :
  processTask svc task w = (Returned r, w') ->
  next r = false ->
  exists prompt w1 output w2 d,
    preProcessTask svc task w = (Returned (executePromptT prompt), w1) /\
    executePrompt svc prompt (workDone task) w1 = (Returned output, w2) /\
    evaluator svc (length (trace w2)) (description task) (workDone task) = Returned d /\
    status d = continue /\
    trace w' = trace w2 ++ [EvaluateRequest (description task) (workDone task)].
Proof.
  intros Hrun Hnext. pose proof Hrun as Hrun'. revert Hrun'.
  unfold processTask, bind.
  destruct (preProcessTask svc task w) as [[[sts|prompt|m why]|e] w1] eqn:Hpre;
    [| |intros [= <- _]; done | done].
  - rewrite mapM_newSubtask.
    destruct (readTasks _) as [[cur|e] v] eqn:Hr; [|done].
    destruct (writeTasks_outcome (cur ++ children_from task (taskNum w1) sts) v)
      as [[e ->]| ->]; [done|].
    unfold push, ret. intros [= <- _]. done.
  - destruct (executePrompt svc prompt (workDone task) w1) as [[output|e] w2] eqn:Hexec;
      [|done].
    destruct (readTasks w2) as [[cur|e] v] eqn:Hr; [|done].
    apply readTasks_world in Hr as ->.
    destruct (store_update_trace (push_work output) task cur w2) as (o1 & v1 & -> & Ht1 & _).
    destruct o1 as [[]|e1]; [|done].
    unfold postProcessTask, ask. rewrite Ht1.
    destruct (evaluator svc _ _ _) as [d|e] eqn:Hev; [|done].
    intros Hrest. exists prompt, w1, output, w2, d.
    split; [reflexivity|]. split; [exact Hexec|]. split; [exact Hev|].
    split; [|exact (processTask_evaluate_request svc task prompt output r w w1 w2 w'
                      Hpre Hexec Hrun)].
    destruct (status d); [|done|by injection Hrest as <- _].
    exfalso. revert Hrest.
    match goal with
    | |- context [readTasks ?v] => destruct (readTasks v) as [[cur2|e2] v2]; [|done]
    end.
    destruct (store_update_trace set_completed task cur2 v2) as (o3 & v3 & -> & _).
    destruct o3 as [[]|e3]; [|done]. unfold ret. intros [= <- _]. done.
Qed.

End More.

(** ** The step only adds *)

Lemma extends_refl (w : World) : extends w w.
Proof. by unfold extends. Qed.

Lemma extends_trans (w1 w2 w3 : World) : extends w1 w2 -> extends w2 w3 -> extends w1 w3.
Proof.
  unfold extends. intros (Hf1 & Hn1 & Hs1 & Ht1) (Hf2 & Hn2 & Hs2 & Ht2).
  repeat split; [auto | lia | by etrans | by etrans].
Qed.

Lemma monotone_ret {A} (a : A) : monotone (ret a).
Proof. intros w r w' [= _ <-]. apply extends_refl. Qed.

Lemma monotone_throw {A} (e : Exn) : monotone (@throw A e).
Proof. intros w r w' [= _ <-]. apply extends_refl. Qed.

Lemma monotone_bind {A B} (m : M A) (f : A -> M B) :
  monotone m -> (forall a, monotone (f a)) -> monotone (bind m f).
Proof.
  intros Hm Hf w r w'. unfold bind.
  destruct (m w) as [[a|e] w1] eqn:Em; intros Hrun.
  - eapply extends_trans; [eapply Hm, Em | eapply Hf, Hrun].
  - injection Hrun as _ <-. eapply Hm, Em.
Qed.

Lemma monotone_mapM {A B} (f : A -> M B) (xs : list A) :
  (forall a, monotone (f a)) -> monotone (mapM f xs).
Proof.
  intros Hf. induction xs as [|x xs IH]; simpl.
  - apply monotone_ret.
  - apply monotone_bind; [apply Hf|]. intros y.
    apply monotone_bind; [apply IH|]. intros ys. apply monotone_ret.
Qed.

Lemma monotone_ask {A} (req : Request) (answer : nat -> Outcome A) : monotone (ask req answer).
Proof.
  intros w r w' [= _ <-]. unfold extends. simpl.
  repeat split; [auto | lia | done | by apply prefix_app_r].
Qed.

Lemma monotone_unchanged {A} (m : M A) :
  (forall w r w', m w = (r, w') -> w' = w) -> monotone m.
Proof. intros H w r w' Hrun. rewrite (H _ _ _ Hrun). apply extends_refl. Qed.

Lemma monotone_readWorkDirTree : monotone readWorkDirTree.
Proof. apply monotone_unchanged. intros w r w'. apply readWorkDirTree_world. Qed.

Lemma monotone_readWorkFile (fileName : string) : monotone (readWorkFile fileName).
Proof. apply monotone_unchanged. intros w r w'. rewrite readWorkFile_eq. by intros [= _ <-]. Qed.

Lemma monotone_readTasks : monotone readTasks.
Proof. apply monotone_unchanged. intros w r w'. apply readTasks_world. Qed.

Lemma monotone_writeWorkFile (fileName content : string) :
  monotone (writeWorkFile fileName content).
Proof.
  intros w r w'.
  destruct (writeWorkFile_outcome fileName content w) as [[e ->]| ->]; intros [= _ <-].
  - apply extends_refl.
  - unfold extends. simpl. repeat split; [|lia|done|done].
    intros p Hp. by apply written_fs_keeps.
Qed.

Lemma monotone_newSubtask (task : Task) (s : Subtask) : monotone (newSubtask task s).
Proof. intros w r w' [= _ <-]. unfold extends. simpl. repeat split; [auto | lia | done..]. Qed.

Lemma monotone_push (x : Z) : monotone (push x).
Proof.
  intros w r w' [= _ <-]. unfold extends. simpl.
  repeat split; [auto | lia | by apply prefix_app_r | done].
Qed.

Section Adds.
Variable svc : Services.

Lemma monotone_executePrompt (prompt workSummary : string) :
  monotone (executePrompt svc prompt workSummary).
Proof.
  apply monotone_bind.
  { apply monotone_bind; [apply monotone_readWorkDirTree|]. intros dirTree.
    apply monotone_bind; [apply monotone_ask|]. intros relevant.
    apply monotone_bind; [|intros; apply monotone_ret].
    apply monotone_mapM. intros file.
    apply monotone_bind; [apply monotone_readWorkFile|]. intros; apply monotone_ret. }
  intros context. apply monotone_bind.
  { apply monotone_bind; [apply monotone_readWorkDirTree|]. intros; apply monotone_ask. }
  intros saveLoc. apply monotone_bind; [apply monotone_ask|]. intros [out|].
  - apply monotone_bind; [apply monotone_writeWorkFile|]. intros; apply monotone_ret.
  - apply monotone_throw.
Qed.

Lemma monotone_update (f : Task -> Task) (task : Task) (currentTasks : list Task) :
  monotone (match JS.findIndex (fun t => id t =? id task) currentTasks with
            | Some i => writeTasks (alter f i currentTasks)
            | None => ret tt
            end).
Proof.
  destruct (JS.findIndex _ _); [apply monotone_writeWorkFile | apply monotone_ret].
Qed.

Lemma monotone_processTask (task : Task) : monotone (processTask svc task).
Proof.
  apply monotone_bind.
  { apply monotone_bind; [apply monotone_ask|].
    intros [o|]; [apply monotone_ret | apply monotone_throw]. }
  intros [sts|prompt|m why].
  - apply monotone_bind; [apply monotone_mapM, monotone_newSubtask|]. intros children.
    apply monotone_bind; [apply monotone_readTasks|]. intros currentTasks.
    apply monotone_bind; [apply monotone_writeWorkFile|]. intros _.
    apply monotone_bind; [apply monotone_push|]. intros; apply monotone_ret.
  - apply monotone_bind; [apply monotone_executePrompt|]. intros output.
    apply monotone_bind; [apply monotone_readTasks|]. intros currentTasks.
    apply monotone_bind; [apply monotone_update|]. intros _.
    apply monotone_bind; [apply monotone_ask|]. intros d.
    destruct (status d); try apply monotone_ret.
    apply monotone_bind; [apply monotone_readTasks|]. intros currentTasks2.
    apply monotone_bind; [apply monotone_update|]. intros; apply monotone_ret.
  - apply monotone_ret.
Qed.

(** X19: whatever its outcome, a scheduling step only adds.  No path of
    the file system disappears, the counter never goes down, and the stack
    and the trace keep what they held (the stack is never popped). *)
Theorem processTask_only_adds (task : Task) (w : World) :
  (forall p, is_Some (fs w !! p) -> is_Some (fs (snd (processTask svc task w)) !! p)) /\
  taskNum w <= taskNum (snd (processTask svc task w)) /\
  taskStack w `prefix_of` taskStack (snd (processTask svc task w)) /\
  trace w `prefix_of` trace (snd (processTask svc task w)).
Proof.
  destruct (processTask svc task w) as [r w'] eqn:Hrun.
  exact (monotone_processTask task w r w' Hrun).
Qed.

(** X20: decomposition followed by selection.  After a subtasks verdict on
    a store that can be read and written, [getTaskList] on the stack the
    step leaves returns the incomplete tasks whose parent is [task] and no
    others; every child just created is among them. *)
Theorem processTask_subtasks_then_getTaskList (task : Task) (sts : list Subtask)
    (cur : list Task) (w w1 : World) :
  preProcessTask svc task w = (Returned (subtasks sts), w1) ->
  fst (readTasks w) = Returned cur ->
  Fs.is_directory (fs w) "./work" = true ->
  Fs.is_directory (fs w) "./work/tasks.json" = false ->
  exists w' result,
    processTask svc task w = (Returned {| next := true |}, w') /\
    getTaskList (taskStack w') w' = (Returned result, w') /\
    (forall c, c ∈ children_from task (taskNum w) sts -> c ∈ result) /\
    (forall t, t ∈ result <->
               (t ∈ cur \/ t ∈ children_from task (taskNum w) sts) /\
               completed t = false /\ parentId t = id task).
Proof.
  intros Hpre Hread Hwork Hfile.
  pose proof (read_only_preProcessTask svc task _ _ _ Hpre) as (Hfs & Hnum & Hstack).
  set (children := children_from task (taskNum w) sts).
  set (w2 := {| fs := fs w1; taskNum := taskNum w1 + Z.of_nat (length sts);
                taskStack := taskStack w1; trace := trace w1 |}).
  set (w3 := set_fs (insert "./work/tasks.json"
                       (File (JSON_stringify_tasks (cur ++ children)))) w2).
  set (w' := snd (push (id task) w3)).
  assert (Hread2 : readTasks w2 = (Returned cur, w2)).
  { apply readTasks_run. rewrite <- Hread. apply readTasks_store_text.
    unfold store_text, file_at. simpl. by rewrite Hfs. }
  assert (Hwrite : writeTasks (cur ++ children) w2 = (Returned tt, w3)).
  { apply writeTasks_run; simpl; by rewrite Hfs. }
  assert (Hread' : readTasks w' = (Returned (cur ++ children), w')).
  { apply readTasks_run.
    rewrite <- (readTasks_store_text w3) by reflexivity.
    unfold w3. by rewrite readTasks_written. }
  assert (Hmem : forall t, t ∈ JS.sort compareTaskPriority (candidates (taskStack w') (cur ++ children)) <->
            (t ∈ cur \/ t ∈ children) /\ completed t = false /\ parentId t = id task).
  { intros t. rewrite (sort_perm compareTaskPriority). unfold candidates.
    rewrite list_elem_of_filter, elem_of_app.
    change (taskStack w') with (taskStack w1 ++ [id task]). rewrite last_snoc. split.
    - intros [[Hc [Hs|Hs]] Hin]; [by destruct (taskStack w1)|].
      injection Hs as Hs. done.
    - intros (Hin & Hc & Hp). rewrite Hp. auto. }
  exists w', (JS.sort compareTaskPriority (candidates (taskStack w') (cur ++ children))).
  split.
  { unfold processTask, bind. rewrite Hpre, mapM_newSubtask. fold w2.
    rewrite Hread2, Hnum. fold children. rewrite Hwrite. reflexivity. }
  split; [by apply getTaskList_eq|]. split; [|exact Hmem].
  intros c Hc. apply Hmem. split; [by right|].
  pose proof (children_from_shape task (taskNum w) sts) as Hshape.
  rewrite Forall_forall in Hshape. destruct (Hshape c Hc) as (_ & Hp & _ & Hcomp). done.
Qed.

End Adds.

(** ** Context and execution *)






Section Execute.
Variable svc : Services.


(** X22: [executePrompt] when the three service calls succeed, the path the
    save location names is a plain file name and the write can succeed.  It
    returns the summary of the generated output and writes the content at
    that path (followed by [.md] if the path has no dot); the text of every
    other file, the counter and the stack are unchanged; the generator was
    asked with the context and the work summary. *)
Theorem executePrompt_writes (prompt workSummary context : string)
    (saveLoc : SaveLocation) (out : TextOutput) (w w1 w2 : World) :
  getContext svc prompt w = (Returned context, w1) ->
  getTaskSaveLocation svc prompt w1 = (Returned saveLoc, w2) ->
  generator svc (length (trace w2)) context workSummary prompt = Returned (Some out) ->
  plain (path saveLoc) = true ->
  writable w (path saveLoc) ->
  exists w3,
    executePrompt svc prompt workSummary w = (Returned (summary_of_work_done out), w3) /\
    file_at w3 (target (path saveLoc)) = Some (content out) /\
    (forall p, p <> target (path saveLoc) -> file_at w3 p = file_at w p) /\
    taskNum w3 = taskNum w /\ taskStack w3 = taskStack w /\
    trace w3 = trace w2 ++ [GenerateRequest context workSummary prompt].
Proof.
  intros Hc Hs Hg _ Hcan.
  pose proof (read_only_getContext svc prompt _ _ _ Hc) as (Hfs1 & Hn1 & Hs1).
  pose proof (read_only_getTaskSaveLocation svc prompt _ _ _ Hs) as (Hfs2 & Hn2 & Hs2).
  set (w2' := {| fs := fs w2; taskNum := taskNum w2; taskStack := taskStack w2;
                 trace := trace w2 ++ [GenerateRequest context workSummary prompt] |}).
  assert (Hcan' : writable w2' (path saveLoc)).
  { unfold writable in *. simpl. by rewrite Hfs2, Hfs1. }
  exists (set_fs (written_fs (path saveLoc) (content out)) w2').
  split.
  { unfold executePrompt, bind. rewrite Hc, Hs. unfold ask at 1. rewrite Hg.
    fold w2'. by rewrite (writeWorkFile_run _ _ _ Hcan'). }
  split; [apply written_fs_target|]. split.
  { intros p Hp. unfold file_at. simpl. rewrite written_fs_others by done.
    by rewrite Hfs2, Hfs1. }
  simpl. repeat split; congruence.
Qed.

(** When the write cannot succeed, [executePrompt] throws after the three
    calls and has changed no file. *)
Lemma executePrompt_write_failure (prompt workSummary context : string)
    (saveLoc : SaveLocation) (out : TextOutput) (w w1 w2 : World) :
  getContext svc prompt w = (Returned context, w1) ->
  getTaskSaveLocation svc prompt w1 = (Returned saveLoc, w2) ->
  generator svc (length (trace w2)) context workSummary prompt = Returned (Some out) ->
  Fs.is_directory (fs w) (target (path saveLoc)) = true ->
  exists e w3,
    executePrompt svc prompt workSummary w = (Thrown e, w3) /\ fs w3 = fs w.
Proof.
  intros Hc Hs Hg Hdir.
  pose proof (read_only_getContext svc prompt _ _ _ Hc) as (Hfs1 & Hn1 & Hs1).
  pose proof (read_only_getTaskSaveLocation svc prompt _ _ _ Hs) as (Hfs2 & Hn2 & Hs2).
  set (w2' := {| fs := fs w2; taskNum := taskNum w2; taskStack := taskStack w2;
                 trace := trace w2 ++ [GenerateRequest context workSummary prompt] |}).
  destruct (writeWorkFile_fails (path saveLoc) (content out) w2') as [e He].
  { right. left. simpl. by rewrite Hfs2, Hfs1. }
  exists e, w2'. split.
  - unfold executePrompt, bind. rewrite Hc, Hs. unfold ask at 1. rewrite Hg.
    fold w2'. by rewrite He.
  - simpl. congruence.
Qed.

End Execute.

(** ** Planning and main *)

Lemma mapM_newPlannedTask (task : Task) (items : list SubtaskItem) (w : World) :
  mapM (newPlannedTask task) items w
  = (Returned (planned_from task (taskNum w) items),
     {| fs := fs w; taskNum := taskNum w + Z.of_nat (length items);
        taskStack := taskStack w; trace := trace w |}).
Proof.
  revert w. induction items as [|s items IH]; intros w; simpl.
  - unfold ret. destruct w; simpl. do 2 f_equal. lia.
  - unfold bind. unfold newPlannedTask at 1. rewrite IH. simpl. unfold ret.
    do 2 f_equal. lia.
Qed.

Lemma planned_from_ids (task : Task) (n : Z) (items : list SubtaskItem) :
  map id (planned_from task n items) = seqZ (n + 1) (Z.of_nat (length items)).
Proof.
  revert n. induction items as [|s items IH]; intros n; [done|].
  change (length (s :: items)) with (S (length items)).
  rewrite Nat2Z.inj_succ, seqZ_cons by lia. simpl. rewrite IH. do 2 f_equal. lia.
Qed.

Lemma planned_from_shape (task : Task) (n : Z) (items : list SubtaskItem) :
  Forall (fun c => parentId c = id task /\ work_ledger c = [] /\ completed c = false)
         (planned_from task n items) /\
  map description (planned_from task n items) = map subtask items /\
  map priority (planned_from task n items) = map item_priority items.
Proof.
  revert n. induction items as [|s items IH]; intros n; simpl; [done|].
  destruct (IH (n + 1)) as (H1 & H2 & H3). rewrite H2, H3.
  repeat split; [|done..]. by constructor.
Qed.

(** X23: [makeTaskSubtasks] turns the items of the planning response into
    tasks numbered with the next values of the counter, in the order of the
    response, children of [task], with an empty ledger and not completed.
    It writes nothing: the tasks are returned, not stored.  When the
    response fails, the exception is passed on and the counter is
    unchanged. *)
Theorem makeTaskSubtasks_plans (task : Task) (items : list SubtaskItem) (e : Exn)
    (w : World) :
  (exists children w',
     makeTaskSubtasks (Returned items) task w = (Returned children, w') /\
     map id children = seqZ (taskNum w + 1) (Z.of_nat (length items)) /\
     map description children = map subtask items /\
     map priority children = map item_priority items /\
     Forall (fun c => parentId c = id task /\ work_ledger c = [] /\ completed c = false)
            children /\
     taskNum w' = taskNum w + Z.of_nat (length items) /\
     fs w' = fs w /\ taskStack w' = taskStack w) /\
  makeTaskSubtasks (Thrown e) task w = (Thrown e, w).
Proof.
  split; [|reflexivity].
  destruct (planned_from_shape task (taskNum w) items) as (Hshape & Hdesc & Hprio).
  do 2 eexists. split.
  { unfold makeTaskSubtasks, bind. apply mapM_newPlannedTask. }
  split; [apply planned_from_ids|]. done.
Qed.

(** X24: [main] makes sure the working directory exists, advances the
    counter past the root task and plans its subtasks.  It stores nothing:
    the text of the store and every path other than [./work] are as before.
    The subtasks are children of task 1 and, in a process that has just
    started (counter at 0), are numbered from 2. *)
Theorem main_plans (items : list SubtaskItem) (w : World) :
  exists children w',
    main (Returned items) w = (Returned children, w') /\
    is_Some (fs w' !! "./work") /\
    (forall p, p <> "./work" -> fs w' !! p = fs w !! p) /\
    store_text w' = store_text w /\
    taskNum w' = taskNum w + 1 + Z.of_nat (length items) /\
    taskStack w' = [] /\
    map id children = seqZ (taskNum w + 2) (Z.of_nat (length items)) /\
    Forall (fun c => parentId c = 1 /\ completed c = false) children.
Proof.
  assert (Hdir : exists v, createWorkDir w = (Returned tt, v) /\
            is_Some (fs v !! "./work") /\
            (forall p, p <> "./work" -> fs v !! p = fs w !! p) /\
            taskNum v = taskNum w).
  { destruct (fs w !! "./work") as [n|] eqn:E.
    - exists w. rewrite createWorkDir_present by (rewrite E; eauto).
      rewrite E. repeat split; eauto.
    - exists (set_fs (insert "./work" Dir) w). rewrite createWorkDir_absent by done.
      simpl. rewrite lookup_insert_eq. repeat split; eauto.
      intros p Hp. by rewrite lookup_insert_ne. }
  destruct Hdir as (v & Hcreate & Hwork & Hothers & Hnum).
  do 2 eexists. split.
  { unfold main, bind. rewrite Hcreate. unfold makeTaskSubtasks, bind.
    rewrite mapM_newPlannedTask. unfold ret. reflexivity. }
  simpl. split; [exact Hwork|]. split; [exact Hothers|]. split.
  { unfold store_text, file_at, file_in. simpl. by rewrite Hothers. }
  split; [lia|]. split; [done|]. split.
  { rewrite planned_from_ids, Hnum. f_equal. lia. }
  eapply Forall_impl; [apply planned_from_shape|]. simpl. tauto.
Qed.

(** ** The scheduling assistant *)

Lemma representable_integral (v : JSON.value) :
  representable v = true -> JSON.integral v = true.
Proof.
  induction v as [| b | z | lit | s | vs IH | fields IH] using JSONSpec.value_ind';
    try done.
  - cbn [representable JSON.integral]. induction IH as [|v vs Hv _ IHvs]; [done|].
    cbn [forallb]. intros [H1 H2]%andb_prop. by rewrite Hv, IHvs.
  - cbn [representable JSON.integral]. induction IH as [|f fields Hf _ IHfs]; [done|].
    cbn [forallb]. intros [H1 H2]%andb_prop. by rewrite Hf, IHfs.
Qed.

(** X25: the assistant's [readTasks] has no fallback.  With nothing at the
    path of the store in a working directory that exists it throws ENOENT,
    with a directory at the path EISDIR, and with a store whose text is not
    JSON, the empty text included, SyntaxError.  Nothing is changed. *)
Theorem Assistant_readTasks_throws (w : World) :
  (fs w !! "./work/tasks.json" = None ->
   Fs.is_directory (fs w) "./work/tasks.json" = false ->
   Fs.is_directory (fs w) "./work" = true ->
   Assistant.readTasks w = (Thrown ENOENT, w)) /\
  (Fs.is_directory (fs w) "./work/tasks.json" = true ->
   Assistant.readTasks w = (Thrown EISDIR, w)) /\
  (forall text, store_text w = Some text -> JSON.parse text = None ->
                Assistant.readTasks w = (Thrown SyntaxError, w)) /\
  (store_text w = Some EmptyString -> Assistant.readTasks w = (Thrown SyntaxError, w)).
Proof.
  assert (Hsyntax : forall text, store_text w = Some text -> JSON.parse text = None ->
            Assistant.readTasks w = (Thrown SyntaxError, w)).
  { unfold store_text, file_at, file_in. intros text Hs Hparse.
    unfold Assistant.readTasks, bind, Assistant.readWorkFile, Fs.readFile.
    change ("./work/" +:+ "tasks.json") with "./work/tasks.json".
    destruct (fs w !! "./work/tasks.json") as [[t|]|]; [|done..].
    injection Hs as ->. by rewrite Hparse. }
  split; [|split; [|split]].
  - intros Hnone Hnodir Hwork.
    unfold Assistant.readTasks, bind, Assistant.readWorkFile, Fs.readFile, Fs.unreachable.
    change ("./work/" +:+ "tasks.json") with "./work/tasks.json".
    change (Fs.parent "./work/tasks.json") with "./work".
    by rewrite Hnone, Hnodir, Hwork.
  - intros Hdir.
    unfold Assistant.readTasks, bind, Assistant.readWorkFile, Fs.readFile.
    change ("./work/" +:+ "tasks.json") with "./work/tasks.json".
    rewrite Hdir. unfold Fs.is_directory in Hdir.
    by destruct (fs w !! "./work/tasks.json") as [[t|]|].
  - exact Hsyntax.
  - intros Hs. by apply (Hsyntax EmptyString).
Qed.

Lemma Assistant_readTasks_throws_witness :
  Assistant.readTasks Ex.boot = (Thrown ENOENT, Ex.boot) /\
  Assistant.readTasks (Ex.with_store_text "[1,]")
  = (Thrown SyntaxError, Ex.with_store_text "[1,]").
Proof.
  split.
  - apply (proj1 (Assistant_readTasks_throws Ex.boot)); reflexivity.
  - apply (proj1 (proj2 (proj2 (Assistant_readTasks_throws (Ex.with_store_text "[1,]")))))
      with (text := "[1,]"); reflexivity.
Defined.

(** X26: the assistant's store round trip.  Where the working directory
    exists and the path of the store is not a directory, [writeTasks]
    succeeds, and the next [readTasks] returns the value written, for every
    value whose numbers are integers that JavaScript holds exactly. *)
Theorem Assistant_writeTasks_readTasks (tasks : JSON.value) (w : World) :
  representable tasks = true ->
  Fs.is_directory (fs w) "./work" = true ->
  Fs.is_directory (fs w) "./work/tasks.json" = false ->
  exists w',
    Assistant.writeTasks tasks w = (Returned tt, w') /\
    Assistant.readTasks w' = (Returned tasks, w').
Proof.
  intros Hrep Hwork Hfile.
  exists (set_fs (insert "./work/tasks.json" (File (JSONPrint.stringify tasks))) w).
  split.
  - unfold Assistant.writeTasks, Assistant.writeWorkFile, Fs.writeFile.
    change ("./work/" +:+ "tasks.json") with "./work/tasks.json".
    change (Fs.parent "./work/tasks.json") with "./work".
    rewrite Hfile, Hwork. by destruct (fs w !! "./work/tasks.json").
  - unfold Assistant.readTasks, bind, Assistant.readWorkFile, Fs.readFile.
    change ("./work/" +:+ "tasks.json") with "./work/tasks.json".
    simpl. rewrite lookup_insert_eq.
    by rewrite JSONFacts.parse_stringify by by apply representable_integral.
Qed.

Lemma Assistant_writeTasks_readTasks_witness :
  exists w',
    Assistant.writeTasks (JSON.Array [JSON.Number 1; JSON.Str "two"]) Ex.boot
    = (Returned tt, w') /\
    Assistant.readTasks w' = (Returned (JSON.Array [JSON.Number 1; JSON.Str "two"]), w').
Proof.
  apply (Assistant_writeTasks_readTasks (JSON.Array [JSON.Number 1; JSON.Str "two"]) Ex.boot).
  - reflexivity.
  - reflexivity.
  - vm_compute; reflexivity.
Defined.

(** ** The further theorems at concrete inputs *)


Lemma processTask_classifier_failure_witness :
  exists w',
    processTask Ex2.classifier_down Ex.root (Ex.stored [Ex.root])
    = (Thrown (ServiceError "classifier unreachable"), w') /\
    fs w' = fs (Ex.stored [Ex.root]).
Proof.
  destruct (processTask_classifier_failure Ex2.classifier_down Ex.root
              (ServiceError "classifier unreachable") (Ex.stored [Ex.root]))
    as (w' & Hrun & Hfs & _).
  - left. reflexivity.
  - exists w'. split; [exact Hrun | exact Hfs].
Defined.

(** The root task is executed and judged complete: its stored ledger gets
    the summary and it is marked completed. *)
Lemma processTask_executes_witness :
  exists w' t0,
    processTask (Ex.services (executePromptT "Write the outline") (Some Ex.outline) complete)
                Ex.root (Ex.stored [Ex.root])
    = (Returned {| next := true |}, w') /\
    t0 = Ex.root /\
    fst (readTasks w')
    = Returned [{| id := 1; parentId := 0; description := "Write a blog post";
                   priority := high;
                   work_ledger := [{| work_summary := "Wrote the outline" |}];
                   requirements_for_success := "Easy to follow";
                   completed := true |}].
Proof.
  destruct (processTask_executes
              (Ex.services (executePromptT "Write the outline") (Some Ex.outline) complete)
              Ex.root "Write the outline" "Wrote the outline" [Ex.root] 0%nat
              {| status := complete; reason := None |}
              (Ex.stored [Ex.root])
              (snd (preProcessTask
                      (Ex.services (executePromptT "Write the outline")
                                   (Some Ex.outline) complete)
                      Ex.root (Ex.stored [Ex.root])))
              (snd (executePrompt
                      (Ex.services (executePromptT "Write the outline")
                                   (Some Ex.outline) complete)
                      "Write the outline" (workDone Ex.root)
                      (snd (preProcessTask
                              (Ex.services (executePromptT "Write the outline")
                                           (Some Ex.outline) complete)
                              Ex.root (Ex.stored [Ex.root]))))))
    as (w' & t0 & Hrun & Ht0 & _ & _ & Hread & _).
  - vm_compute; reflexivity.
  - vm_compute; reflexivity.
  - vm_compute; reflexivity.
  - reflexivity.
  - reflexivity.
  - exists w', t0. injection Ht0 as <-. split; [exact Hrun|]. split; [reflexivity|].
    exact Hread.
Defined.

Lemma processTask_evaluator_failure_witness :
  exists w',
    processTask Ex2.evaluator_down Ex.root (Ex.stored [Ex.root])
    = (Thrown (ServiceError "evaluator unreachable"), w') /\
    fst (readTasks w') = Returned [push_work "Wrote the outline" Ex.root].
Proof.
  destruct (processTask_evaluator_failure Ex2.evaluator_down
              Ex.root "Write the outline" "Wrote the outline" [Ex.root] 0%nat
              (ServiceError "evaluator unreachable")
              (Ex.stored [Ex.root])
              (snd (preProcessTask Ex2.evaluator_down Ex.root (Ex.stored [Ex.root])))
              (snd (executePrompt Ex2.evaluator_down
                      "Write the outline" (workDone Ex.root)
                      (snd (preProcessTask Ex2.evaluator_down Ex.root
                              (Ex.stored [Ex.root]))))))
    as (w' & Hrun & Hread).
  - vm_compute; reflexivity.
  - vm_compute; reflexivity.
  - vm_compute; reflexivity.
  - reflexivity.
  - reflexivity.
  - exists w'. split; [exact Hrun | exact Hread].
Defined.

Lemma processTask_retry_only_on_continue_witness :
  fst (processTask (Ex.services (executePromptT "Write the outline") (Some Ex.outline) continue)
                   Ex.root (Ex.stored [Ex.root]))
  = Returned {| next := false |} /\
  exists prompt w1 output w2 d,
    preProcessTask (Ex.services (executePromptT "Write the outline") (Some Ex.outline) continue)
                   Ex.root (Ex.stored [Ex.root])
    = (Returned (executePromptT prompt), w1) /\
    executePrompt (Ex.services (executePromptT "Write the outline") (Some Ex.outline) continue)
                  prompt (workDone Ex.root) w1
    = (Returned output, w2) /\
    evaluator (Ex.services (executePromptT "Write the outline") (Some Ex.outline) continue)
              (length (trace w2)) (description Ex.root) (workDone Ex.root) = Returned d /\
    status d = continue.
Proof.
  split; [vm_compute; reflexivity|].
  destruct (processTask_retry_only_on_continue
              (Ex.services (executePromptT "Write the outline") (Some Ex.outline) continue)
              Ex.root {| next := false |} (Ex.stored [Ex.root])
              (snd (processTask
                      (Ex.services (executePromptT "Write the outline")
                                   (Some Ex.outline) continue)
                      Ex.root (Ex.stored [Ex.root]))))
    as (prompt & w1 & output & w2 & d & Hpre & Hexec & Hev & Hst & _).
  - vm_compute; reflexivity.
  - reflexivity.
  - exists prompt, w1, output, w2, d. repeat split; assumption.
Defined.

Lemma processTask_subtasks_then_getTaskList_witness :
  exists w' result,
    processTask (Ex.services (subtasks [Ex.draft; Ex.draft]) None defer)
                Ex.root (Ex.stored [Ex.root; Ex.child 7 low true])
    = (Returned {| next := true |}, w') /\
    getTaskList (taskStack w') w' = (Returned result, w') /\
    forall c, c ∈ children_from Ex.root 1 [Ex.draft; Ex.draft] -> c ∈ result.
Proof.
  destruct (processTask_subtasks_then_getTaskList
              (Ex.services (subtasks [Ex.draft; Ex.draft]) None defer)
              Ex.root [Ex.draft; Ex.draft] [Ex.root; Ex.child 7 low true]
              (Ex.stored [Ex.root; Ex.child 7 low true])
              (snd (preProcessTask
                      (Ex.services (subtasks [Ex.draft; Ex.draft]) None defer)
                      Ex.root (Ex.stored [Ex.root; Ex.child 7 low true]))))
    as (w' & result & Hrun & Hsel & Hin & _).
  - vm_compute; reflexivity.
  - vm_compute; reflexivity.
  - vm_compute; reflexivity.
  - vm_compute; reflexivity.
  - exists w', result. split; [exact Hrun|]. split; [exact Hsel | exact Hin].
Defined.


Lemma executePrompt_writes_witness :
  exists w3,
    executePrompt (Ex.services (executePromptT "Write the outline") (Some Ex.outline) defer)
                  "Write the outline" EmptyString Ex.boot
    = (Returned "Wrote the outline", w3) /\
    file_at w3 "./work/notes/plan.md" = Some "# Outline".
Proof.
  destruct (executePrompt_writes
              (Ex.services (executePromptT "Write the outline") (Some Ex.outline) defer)
              "Write the outline" EmptyString EmptyString
              {| path := "notes/plan"; save_reason := None |} Ex.outline
              Ex.boot
              (snd (getContext
                      (Ex.services (executePromptT "Write the outline")
                                   (Some Ex.outline) defer)
                      "Write the outline" Ex.boot))
              (snd (getTaskSaveLocation
                      (Ex.services (executePromptT "Write the outline")
                                   (Some Ex.outline) defer)
                      "Write the outline"
                      (snd (getContext
                              (Ex.services (executePromptT "Write the outline")
                                           (Some Ex.outline) defer)
                              "Write the outline" Ex.boot)))))
    as (w3 & Hrun & Hfile & _).
  - vm_compute; reflexivity.
  - vm_compute; reflexivity.
  - reflexivity.
  - reflexivity.
  - split; [vm_compute; reflexivity | vm_compute; reflexivity].
  - exists w3. split; [exact Hrun | exact Hfile].
Defined.

(** ** Two more facts about the step *)

(** X27: the ledger text after an append.  The text sent to the classifier
    and the evaluator for a task with the new entry is the summary alone when
    the ledger was empty, and the old text, a newline and the summary
    otherwise. *)
Theorem workDone_push_work (output : string) (t : Task) :
  workDone (push_work output t)
  = match work_ledger t with
    | [] => output
    | _ :: _ => workDone t +:+ String "010" EmptyString +:+ output
    end.
Proof.
  unfold workDone, push_work. simpl work_ledger. rewrite map_app. simpl map at 2.
  rewrite join_snoc. by destruct (work_ledger t).
Qed.

Section Unreadable.
Variable svc : Services.


End Unreadable.

